(** * Fault reporting of the Gaussian-splat viewer

    A shallow embedding of [gs::core::ExceptionHandler]
    (include/core/exception_handler.hpp) and of
    [gs::visualizer::ExceptionVisualizer]
    (src/visualizer/exception_visualizer.hpp, src/exception_handler.cpp),
    followed by the properties of the two components.
    src/visualizer/exception_visualizer.cpp holds an earlier variant of the
    member functions, written against members the class declaration does
    not have; it is not the one embedded here.

    Beside them: the ring settings of [gs::SceneRenderer]
    (include/visualizer/scene_renderer.hpp) with the part of
    [gs::RingModePanel] that edits them, and the parts of the main loop of
    [gs::GSViewer] (src/visualizer/gs_viewer.cpp) that do not draw.

    - C++ [float] is IEEE 754 binary32: the operations are those of the
      Standard Library's [SpecFloat] at precision 24 and maximal exponent 128.
    - [size_t] is a 64-bit unsigned integer: a value of [N], increments are
      written with their wrap-around.
    - A call that may throw is a function from the process state to an
      outcome (a value or a thrown object) and a new process state.
    - A template is embedded where it can be instantiated: the adapter of
      [wrap] for the result types its lambda deduces a return type for.
    - Dear ImGui is the environment of the overlay: the open/closed state of
      the popup, the buttons pressed in a frame and the sizes it reports are
      inputs, the windows submitted in a frame are the output. *)

From Stdlib Require Import ZArith NArith QArith Bool List String Ascii Lia Lqa.
From Stdlib Require Import DecimalString.
From Stdlib Require Import Floats.SpecFloat.
Import ListNotations.

Local Open Scope string_scope.
Local Open Scope list_scope.
Local Open Scope Z_scope.

(** ** Single-precision floating point *)

Module Float32.

Definition prec : Z := 24.
Definition emax : Z := 128.

Definition float : Type := spec_float.

Definition of_Z (z : Z) : float := binary_normalize prec emax z 0 false.

Definition add : float -> float -> float := SFadd prec emax.
Definition sub : float -> float -> float := SFsub prec emax.
Definition mul : float -> float -> float := SFmul prec emax.
Definition div : float -> float -> float := SFdiv prec emax.
Definition ltb : float -> float -> bool := SFltb.
Definition leb : float -> float -> bool := SFleb.

(** A decimal literal [n/d] written in the source, rounded to nearest. *)
Definition literal (n d : Z) : float := div (of_Z n) (of_Z d).

Definition zero : float := of_Z 0.
Definition one : float := of_Z 1.

(** The rational number a finite float stands for, in lowest terms ([None]
    for NaN and the infinities). *)
Definition to_Q (x : float) : option Q :=
  match x with
  | S754_zero _ => Some (0 # 1)
  | S754_finite s m e =>
      let v := match e with
               | Z0 => inject_Z (Zpos m)
               | Zpos p => inject_Z (Zpos m * Z.pow_pos 2 p)
               | Zneg p => Zpos m # Pos.pow 2 p
               end in
      Some (Qred (if s then Qopp v else v))
  | _ => None
  end.

End Float32.

(** ** gs::core *)

Module core.

(** Modelled from the spec: [LogLevel] is declared in logger.hpp, which is
    not among the sources; section 3 of the specification gives the ordered
    enumeration Trace, Debug, Info, Warn, Error, Critical. *)
Inductive LogLevel : Type :=
  | Trace
  | Debug
  | Info
  | Warn
  | Error
  | Critical.

Definition Severity : Type := LogLevel.

Definition LogLevel_eqb (a b : LogLevel) : bool :=
  match a, b with
  | Trace, Trace | Debug, Debug | Info, Info
  | Warn, Warn | Error, Error | Critical, Critical => true
  | _, _ => false
  end.

(** [std::source_location] *)
Record source_location : Type := mk_source_location {
  file_name : string;
  line : N;
  column : N;
  function_name : string
}.

Record ExceptionEvent : Type := mk_ExceptionEvent {
  message : string;
  severity : Severity;
  location : source_location;
  timestamp : Z;
  type_name : string
}.

(** *** Thrown objects and handler selection

    The four classes named by the handlers of [wrap] form a chain:
    filesystem_error derives from system_error, which derives from
    runtime_error, which derives from exception. *)
Inductive std_class : Type :=
  | filesystem_error
  | system_error
  | runtime_error
  | exception.

Definition std_base (c : std_class) : option std_class :=
  match c with
  | filesystem_error => Some system_error
  | system_error => Some runtime_error
  | runtime_error => Some exception
  | exception => None
  end.

(** Number of bases above a class in the chain. *)
Definition std_depth (c : std_class) : nat :=
  match c with
  | filesystem_error => 3
  | system_error => 2
  | runtime_error => 1
  | exception => 0
  end.

(** [std_is_a c h]: a handler for [h] accepts an object of class [c], that
    is, [c] is [h] or [h] is among the bases of [c]. On a chain this is a
    comparison of depths. *)
Definition std_is_a (c h : std_class) : bool := Nat.leb (std_depth h) (std_depth c).

(** How a class has its base. A handler for a class accepts an object of a
    class derived from it only through a base that is public and
    unambiguous; a base that is private or protected, or that the class has
    more than once, is hidden from every handler. *)
Inductive base_kind : Type :=
  | public_base
  | hidden_base.

(** The dynamic type of a thrown object: one of the four classes, or a class
    derived (directly or not) from one of them, such as std::logic_error or
    std::ios_base::failure, with the kind of each base on the way. *)
Inductive exn_type : Type :=
  | Std (c : std_class)
  | Derived (name : string) (kind : base_kind) (base : exn_type).

(** [is_a ty h]: a handler for [h] accepts an object of dynamic type [ty]. *)
Fixpoint is_a (ty : exn_type) (h : std_class) : bool :=
  match ty with
  | Std c => std_is_a c h
  | Derived _ public_base base => is_a base h
  | Derived _ hidden_base _ => false
  end.

(** What a callable can throw: an object of a class of the std::exception
    family with its [what()] text, or anything else ([throw 42;]). *)
Inductive Thrown : Type :=
  | Object (ty : exn_type) (what : string)
  | Opaque.

Inductive catch_clause : Type :=
  | Catch (c : std_class)
  | CatchAll.

Definition matches (t : Thrown) (c : catch_clause) : bool :=
  match c, t with
  | CatchAll, _ => true
  | Catch h, Object ty _ => is_a ty h
  | Catch _, Opaque => false
  end.

(** The handlers of a try block are tried in the order they are written. *)
Fixpoint select_handler {H : Type} (t : Thrown) (handlers : list (catch_clause * H))
  : option H :=
  match handlers with
  | [] => None
  | (c, h) :: rest => if matches t c then Some h else select_handler t rest
  end.

(** [e.what()] in a typed handler. *)
Definition what_of (t : Thrown) : string :=
  match t with
  | Object _ w => w
  | Opaque => ""
  end.

(** *** The result type of the adapter

    The lambda that [wrap] returns is declared [-> decltype(auto)]: its
    return type is deduced from its return statements. The first one,
    [return f(std::forward<Args>(args)...);], gives the result type of the
    callable: [void], whose calls return [tt] here, or a type of objects. *)
Inductive result_type : Type -> Type :=
  | void : result_type unit
  | object (T : Type) : result_type T.

(** What a catch block of the lambda ends with, once
    [if constexpr (!std::is_void_v<decltype(f(...))>)] is decided: for
    [void] the statement under it is discarded and control reaches the end
    of the lambda; for any other type it is [return {};]. *)
Inductive catch_end : Type :=
  | off_the_end
  | return_braces.

Definition end_of_catch {R : Type} (rt : result_type R) : catch_end :=
  match rt with
  | void => off_the_end
  | object _ => return_braces
  end.

(** A return statement whose operand is a braced-init-list is ill-formed in
    a function whose return type is deduced: [{}] has no type to deduce.
    Reaching the end of a function is a [return;], which agrees with a
    deduced [void]. *)
Definition well_formed {R : Type} (rt : result_type R) : bool :=
  match end_of_catch rt with
  | off_the_end => true
  | return_braces => false
  end.

(** The result types [R] for which the lambda can be instantiated: calling
    the adapter of a callable of another result type does not compile. *)
Class Instantiated (R : Type) : Type := mk_Instantiated {
  result : result_type R;
  instantiates : well_formed result = true
}.

#[global] Instance Instantiated_void : Instantiated unit :=
  {| result := void; instantiates := eq_refl |}.

(** What a call returns that reaches the end of the lambda. *)
Definition nothing {R : Type} `{I : Instantiated R} : R :=
  match result as rt in result_type R0 return well_formed rt = true -> R0 with
  | void => fun _ => tt
  | object T => fun H => match Bool.diff_false_true H return T with end
  end instantiates.

(** [std::expected<T, E>] *)
Inductive expected (T E : Type) : Type :=
  | has_value (v : T)
  | unexpected (e : E).

Arguments has_value {T E} v.
Arguments unexpected {T E} e.

Section Reporter.

(** The state the registered observers act on. *)
Context {W : Type}.

Definition Observer : Type := ExceptionEvent -> W -> W.

Record ExceptionHandler : Type := mk_ExceptionHandler {
  observers_ : list Observer;
  throw_on_critical_ : bool
}.

(** The process: the singleton returned by [ExceptionHandler::get()], the
    state of the observers and the reading of [std::chrono::steady_clock]. *)
Record Process : Type := mk_Process {
  handler : ExceptionHandler;
  world : W;
  steady_clock : Z
}.

Definition initial_handler : ExceptionHandler :=
  {| observers_ := []; throw_on_critical_ := false |}.

Inductive Outcome (R : Type) : Type :=
  | Returned (r : R)
  | Threw (t : Thrown).

Arguments Returned {R} r.
Arguments Threw {R} t.

(** A call: it runs on the process and returns or throws. *)
Definition Call (R : Type) : Type := Process -> Outcome R * Process.

Definition ret {R : Type} (r : R) : Call R := fun p => (Returned r, p).

Definition bind {A B : Type} (c : Call A) (k : A -> Call B) : Call B :=
  fun p =>
    match c p with
    | (Returned a, p1) => k a p1
    | (Threw t, p1) => (Threw t, p1)
    end.

(** [try { body } catch (...) { ... }]: a thrown object goes to the first
    handler that matches it; with no matching handler it leaves the block. *)
Definition try_catch {R : Type} (body : Call R)
  (handlers : list (catch_clause * (Thrown -> Call R))) : Call R :=
  fun p =>
    match body p with
    | (Returned r, p1) => (Returned r, p1)
    | (Threw t, p1) =>
        match select_handler t handlers with
        | Some h => h t p1
        | None => (Threw t, p1)
        end
    end.

Definition with_world (w : W) (p : Process) : Process :=
  {| handler := handler p; world := w; steady_clock := steady_clock p |}.

Definition with_handler (h : ExceptionHandler) (p : Process) : Process :=
  {| handler := h; world := world p; steady_clock := steady_clock p |}.

(** Every observer of [obs], first to last, receives [ev]. *)
Definition notify (obs : list Observer) (ev : ExceptionEvent) (w : W) : W :=
  fold_left (fun w' o => o ev w') obs w.

(** Modelled from the spec: the body of [handle_exception] is in
    core/exception_handler.cpp, which is not among the sources (the header
    only declares it). Section 4.1: exactly one event is constructed and
    handed to every registered observer, synchronously, in registration
    order; by default classification never re-raises. Observers must not
    raise, so an observer is a total function on the state it owns. The
    flag [throw_on_critical_] is stored by its setter and read by nothing in
    the sources. *)
Definition handle_exception (msg : string) (sev : Severity) (type : string)
  (loc : source_location) : Call unit :=
  fun p =>
    let event := {| message := msg; severity := sev; location := loc;
                    timestamp := steady_clock p; type_name := type |} in
    (Returned tt, with_world (notify (observers_ (handler p)) event (world p)) p).

(** [report(msg, sev, loc)] *)
Definition report (msg : string) (sev : Severity) (loc : source_location)
  : Call unit :=
  handle_exception msg sev "manual_report" loc.

(** One catch block of [wrap] in an instance of the lambda: publish, then
    reach the end. *)
Definition absorb {R : Type} `{Instantiated R} (msg : Thrown -> string)
  (sev : Severity) (type : string) (loc : source_location)
  : Thrown -> Call R :=
  fun t => bind (handle_exception (msg t) sev type loc) (fun _ => ret nothing).

Definition wrap_handlers {R : Type} `{Instantiated R} (loc : source_location)
  : list (catch_clause * (Thrown -> Call R)) :=
  [ (Catch filesystem_error, absorb what_of Error "filesystem_error" loc);
    (Catch system_error, absorb what_of Error "system_error" loc);
    (Catch runtime_error, absorb what_of Error "runtime_error" loc);
    (Catch exception, absorb what_of Error "exception" loc);
    (CatchAll, absorb (fun _ => "Unknown exception") Critical "unknown" loc) ].

(** [wrap(f, loc)]: the adapter, a callable with the arguments of [f], where
    its lambda can be instantiated. *)
Definition wrap {A R : Type} `{Instantiated R} (f : A -> Call R)
  (loc : source_location) : A -> Call R :=
  fun args => try_catch (f args) (wrap_handlers loc).

(** The macros [GS_REPORT_ERROR], [GS_REPORT_WARNING], [GS_REPORT_CRITICAL]
    and [GS_SAFE_CALL]; [loc] is the place of the expansion. *)
Definition GS_REPORT_ERROR (msg : string) (loc : source_location) : Call unit :=
  report msg Error loc.

Definition GS_REPORT_WARNING (msg : string) (loc : source_location) : Call unit :=
  report msg Warn loc.

Definition GS_REPORT_CRITICAL (msg : string) (loc : source_location) : Call unit :=
  report msg Critical loc.

Definition GS_SAFE_CALL {R : Type} `{Instantiated R} (func : Call R)
  (loc : source_location) : Call R :=
  wrap (fun _ : unit => func) loc tt.

(** [handle_expected(result, loc)]. [std::is_convertible_v<E, std::string>]
    is decided at compile time: [to_string] is the conversion when there is
    one. *)
Definition handle_expected {T E : Type} (to_string : option (E -> string))
  (result : expected T E) (loc : source_location) : Call unit :=
  match result with
  | has_value _ => ret tt
  | unexpected e =>
      match to_string with
      | Some conv => report (conv e) Warn loc
      | None => report "Operation failed" Warn loc
      end
  end.

(** [add_observer(obs)]: [observers_.push_back]. *)
Definition add_observer (obs : Observer) : Call unit :=
  fun p =>
    (Returned tt,
     with_handler {| observers_ := observers_ (handler p) ++ [obs];
                     throw_on_critical_ := throw_on_critical_ (handler p) |} p).

Definition remove_observers : Call unit :=
  fun p =>
    (Returned tt,
     with_handler {| observers_ := [];
                     throw_on_critical_ := throw_on_critical_ (handler p) |} p).

Definition set_throw_on_critical (enabled : bool) : Call unit :=
  fun p =>
    (Returned tt,
     with_handler {| observers_ := observers_ (handler p);
                     throw_on_critical_ := enabled |} p).

End Reporter.

Arguments ExceptionHandler W : clear implicits.
Arguments Process W : clear implicits.
Arguments Observer W : clear implicits.
Arguments Call W R : clear implicits.
Arguments Returned {R} r.
Arguments Threw {R} t.

End core.

(** ** gs::visualizer *)

Module visualizer.

Import Float32.

(** [IM_COL32(R, G, B, A)] of imgui.h: a packed 32-bit colour. *)
Definition IM_COL32 (r g b a : Z) : Z :=
  Z.lor (Z.lor (Z.lor (Z.shiftl a 24) (Z.shiftl b 16)) (Z.shiftl g 8)) r.

Record Toast : Type := mk_Toast {
  message : string;
  location : string;
  type : string;
  lifetime : float;
  initial_lifetime : float;
  color : Z;
  severity : core.Severity
}.

Record ExceptionVisualizer : Type := mk_ExceptionVisualizer {
  toasts_ : list Toast;
  modal_error_ : option core.ExceptionEvent;
  enabled_ : bool;
  max_toasts_ : N;
  toast_lifetime_ : float;
  position_corner_ : Z;
  error_count_ : N;
  warning_count_ : N;
  info_count_ : N;
  show_statistics_ : bool
}.

Definition TOAST_WIDTH : float := of_Z 320.
Definition TOAST_SPACING : float := of_Z 10.
Definition TOAST_MARGIN : float := of_Z 20.

(** The part of Dear ImGui's state the overlay acts on: whether the popup
    [##CriticalError] is open, and the clipboard. [ImGui::OpenPopup] marks
    the popup open, [ImGui::BeginPopupModal] returns true while it is open
    and [ImGui::CloseCurrentPopup] closes it; the calls are taken to name the
    same popup, as they do when made at the same level of the ID stack. *)
Record ImGui : Type := mk_ImGui {
  critical_popup_open : bool;
  clipboard : string
}.

Definition OpenPopup (g : ImGui) : ImGui :=
  {| critical_popup_open := true; clipboard := clipboard g |}.

Definition CloseCurrentPopup (g : ImGui) : ImGui :=
  {| critical_popup_open := false; clipboard := clipboard g |}.

Definition SetClipboardText (text : string) (g : ImGui) : ImGui :=
  {| critical_popup_open := critical_popup_open g; clipboard := text |}.

(** The overlay and the toolkit it draws with. *)
Record World : Type := mk_World {
  overlay : ExceptionVisualizer;
  imgui : ImGui
}.

(** The values of the in-class initialisers. *)
Definition initial_visualizer : ExceptionVisualizer :=
  {| toasts_ := []; modal_error_ := None; enabled_ := true;
     max_toasts_ := 5%N; toast_lifetime_ := of_Z 4; position_corner_ := 0;
     error_count_ := 0%N; warning_count_ := 0%N; info_count_ := 0%N;
     show_statistics_ := false |}.

Definition set_toasts (q : list Toast) (v : ExceptionVisualizer) : ExceptionVisualizer :=
  {| toasts_ := q; modal_error_ := modal_error_ v; enabled_ := enabled_ v;
     max_toasts_ := max_toasts_ v; toast_lifetime_ := toast_lifetime_ v;
     position_corner_ := position_corner_ v; error_count_ := error_count_ v;
     warning_count_ := warning_count_ v; info_count_ := info_count_ v;
     show_statistics_ := show_statistics_ v |}.

Definition set_modal_error (m : option core.ExceptionEvent) (v : ExceptionVisualizer)
  : ExceptionVisualizer :=
  {| toasts_ := toasts_ v; modal_error_ := m; enabled_ := enabled_ v;
     max_toasts_ := max_toasts_ v; toast_lifetime_ := toast_lifetime_ v;
     position_corner_ := position_corner_ v; error_count_ := error_count_ v;
     warning_count_ := warning_count_ v; info_count_ := info_count_ v;
     show_statistics_ := show_statistics_ v |}.

Definition set_counts (e w i : N) (v : ExceptionVisualizer) : ExceptionVisualizer :=
  {| toasts_ := toasts_ v; modal_error_ := modal_error_ v; enabled_ := enabled_ v;
     max_toasts_ := max_toasts_ v; toast_lifetime_ := toast_lifetime_ v;
     position_corner_ := position_corner_ v; error_count_ := e;
     warning_count_ := w; info_count_ := i;
     show_statistics_ := show_statistics_ v |}.

Definition set_show_statistics (b : bool) (v : ExceptionVisualizer) : ExceptionVisualizer :=
  {| toasts_ := toasts_ v; modal_error_ := modal_error_ v; enabled_ := enabled_ v;
     max_toasts_ := max_toasts_ v; toast_lifetime_ := toast_lifetime_ v;
     position_corner_ := position_corner_ v; error_count_ := error_count_ v;
     warning_count_ := warning_count_ v; info_count_ := info_count_ v;
     show_statistics_ := b |}.

(** [set_enabled], [set_max_toasts], [set_toast_lifetime],
    [set_position_corner] *)
Definition set_enabled (enabled : bool) (v : ExceptionVisualizer) : ExceptionVisualizer :=
  {| toasts_ := toasts_ v; modal_error_ := modal_error_ v; enabled_ := enabled;
     max_toasts_ := max_toasts_ v; toast_lifetime_ := toast_lifetime_ v;
     position_corner_ := position_corner_ v; error_count_ := error_count_ v;
     warning_count_ := warning_count_ v; info_count_ := info_count_ v;
     show_statistics_ := show_statistics_ v |}.

Definition set_max_toasts (max : N) (v : ExceptionVisualizer) : ExceptionVisualizer :=
  {| toasts_ := toasts_ v; modal_error_ := modal_error_ v; enabled_ := enabled_ v;
     max_toasts_ := max; toast_lifetime_ := toast_lifetime_ v;
     position_corner_ := position_corner_ v; error_count_ := error_count_ v;
     warning_count_ := warning_count_ v; info_count_ := info_count_ v;
     show_statistics_ := show_statistics_ v |}.

Definition set_toast_lifetime (seconds : float) (v : ExceptionVisualizer)
  : ExceptionVisualizer :=
  {| toasts_ := toasts_ v; modal_error_ := modal_error_ v; enabled_ := enabled_ v;
     max_toasts_ := max_toasts_ v; toast_lifetime_ := seconds;
     position_corner_ := position_corner_ v; error_count_ := error_count_ v;
     warning_count_ := warning_count_ v; info_count_ := info_count_ v;
     show_statistics_ := show_statistics_ v |}.

Definition set_position_corner (corner : Z) (v : ExceptionVisualizer)
  : ExceptionVisualizer :=
  {| toasts_ := toasts_ v; modal_error_ := modal_error_ v; enabled_ := enabled_ v;
     max_toasts_ := max_toasts_ v; toast_lifetime_ := toast_lifetime_ v;
     position_corner_ := corner; error_count_ := error_count_ v;
     warning_count_ := warning_count_ v; info_count_ := info_count_ v;
     show_statistics_ := show_statistics_ v |}.

Definition is_enabled (v : ExceptionVisualizer) : bool := enabled_ v.
Definition get_error_count (v : ExceptionVisualizer) : N := error_count_ v.
Definition get_warning_count (v : ExceptionVisualizer) : N := warning_count_ v.

(** [clear()] *)
Definition clear (v : ExceptionVisualizer) : ExceptionVisualizer :=
  set_modal_error None (set_toasts [] v).

(** [counter++] on a [std::atomic<size_t>] *)
Definition size_t_incr (c : N) : N := ((c + 1) mod 2 ^ 64)%N.

Definition severity_to_color (sev : core.Severity) : Z :=
  match sev with
  | core.Critical => IM_COL32 255 50 50 255
  | core.Error => IM_COL32 220 80 80 255
  | core.Warn => IM_COL32 220 180 50 255
  | core.Info => IM_COL32 100 180 220 255
  | core.Debug => IM_COL32 150 150 220 255
  | core.Trace => IM_COL32 180 180 180 255
  end.

(** [std::filesystem::path(p).filename().string()]: what follows the last
    directory separator. *)
Definition is_separator (c : ascii) : bool := Ascii.eqb c "/"%char.

Fixpoint has_separator (s : string) : bool :=
  match s with
  | EmptyString => false
  | String c rest => is_separator c || has_separator rest
  end.

Fixpoint filename (s : string) : string :=
  match s with
  | EmptyString => EmptyString
  | String c rest =>
      if has_separator rest then filename rest
      else if is_separator c then rest
      else String c rest
  end.

(** [std::format("{}", n)] for an unsigned number *)
Definition format_N (n : N) : string := NilZero.string_of_uint (N.to_uint n).

(** [std::format("{}:{}", path.filename().string(), event.location.line())] *)
Definition format_location (loc : core.source_location) : string :=
  (filename (core.file_name loc) ++ ":" ++ format_N (core.line loc))%string.

(** The statistics switch at the head of [on_exception]. *)
Definition update_statistics (sev : core.Severity) (v : ExceptionVisualizer)
  : ExceptionVisualizer :=
  match sev with
  | core.Error | core.Critical =>
      set_counts (size_t_incr (error_count_ v)) (warning_count_ v) (info_count_ v) v
  | core.Warn =>
      set_counts (error_count_ v) (size_t_incr (warning_count_ v)) (info_count_ v) v
  | core.Info | core.Debug | core.Trace =>
      set_counts (error_count_ v) (warning_count_ v) (size_t_incr (info_count_ v)) v
  end.

(** The toast pushed for a non-critical event. *)
Definition make_toast (lifetime : float) (event : core.ExceptionEvent) : Toast :=
  {| message := core.message event;
     location := format_location (core.location event);
     type := core.type_name event;
     lifetime := lifetime;
     initial_lifetime := lifetime;
     color := severity_to_color (core.severity event);
     severity := core.severity event |}.

(** [while (toasts_.size() > max_toasts_) toasts_.pop_front();] *)
Fixpoint limit_toasts (max : N) (q : list Toast) : list Toast :=
  match q with
  | [] => []
  | _ :: rest => if (max <? N.of_nat (List.length q))%N then limit_toasts max rest else q
  end.

(** [on_exception(event)] *)
Definition on_exception (event : core.ExceptionEvent) (w : World) : World :=
  let v := update_statistics (core.severity event) (overlay w) in
  if core.LogLevel_eqb (core.severity event) core.Critical then
    {| overlay := set_modal_error (Some event) v; imgui := OpenPopup (imgui w) |}
  else
    let q := toasts_ v ++ [make_toast (toast_lifetime_ v) event] in
    {| overlay := set_toasts (limit_toasts (max_toasts_ v) q) v; imgui := imgui w |}.

(** *** Rendering *)

(** [ImGui::GetMainViewport()] *)
Record Viewport : Type := mk_Viewport {
  Pos_x : float;
  Pos_y : float;
  Size_x : float;
  Size_y : float
}.

(** What Dear ImGui answers during one frame:
    - the main viewport;
    - for the window of a toast, [None] when [ImGui::Begin] returns false,
      else the value of [ImGui::GetWindowHeight()];
    - which buttons of the popup are pressed;
    - for the statistics window, the value returned by [ImGui::Begin],
      whether its close box is pressed (Begin then clears the flag passed by
      address) and whether Clear All is pressed. *)
Record Frame : Type := mk_Frame {
  viewport : Viewport;
  toast_window_height : Toast -> option float;
  copy_details_pressed : bool;
  view_logs_pressed : bool;
  continue_pressed : bool;
  statistics_begin : bool;
  statistics_closed : bool;
  clear_all_pressed : bool
}.

(** The windows submitted in a frame:
    - a toast at a position, with the value given to
      [SetNextWindowBgAlpha];
    - the popup, with the event whose details it shows, if any;
    - the statistics window with the counters and the number of toasts. *)
Inductive Draw : Type :=
  | ToastWindow (x y bg_alpha : float) (t : Toast)
  | CriticalErrorPopup (details : option core.ExceptionEvent)
  | StatisticsWindow (errors warnings infos : N) (active_toasts : nat).

Definition set_lifetime (l : float) (t : Toast) : Toast :=
  {| message := message t; location := location t; type := type t;
     lifetime := l; initial_lifetime := initial_lifetime t;
     color := color t; severity := severity t |}.

(** The fade of a toast that stays in the queue. *)
Definition fade_alpha (t : Toast) : float :=
  if ltb (lifetime t) (literal 5 10) then
    div (lifetime t) (literal 5 10)
  else if ltb (sub (initial_lifetime t) (literal 3 10)) (lifetime t) then
    div (sub (initial_lifetime t) (lifetime t)) (literal 3 10)
  else one.

(** The switch on [position_corner_]: where the first toast goes and
    whether the next ones go below it. *)
Definition toast_origin (corner : Z) (vp : Viewport) : float * float * bool :=
  let right := sub (sub (add (Pos_x vp) (Size_x vp)) TOAST_WIDTH) TOAST_MARGIN in
  let left := add (Pos_x vp) TOAST_MARGIN in
  let top := add (Pos_y vp) TOAST_MARGIN in
  let bottom := sub (add (Pos_y vp) (Size_y vp)) TOAST_MARGIN in
  match corner with
  | 0 => (right, top, true)
  | 1 => (left, top, true)
  | 2 => (right, bottom, false)
  | 3 => (left, bottom, false)
  | _ => (right, top, true)
  end.

(** The loop of [render_toasts] over the queue, front to back. *)
Fixpoint render_toasts_loop (fr : Frame) (dt x_pos : float) (stack_downward : bool)
  (current_y : float) (q : list Toast) : list Toast * list Draw :=
  match q with
  | [] => ([], [])
  | t :: rest =>
      let t' := set_lifetime (sub (lifetime t) dt) t in
      if leb (lifetime t') zero then
        render_toasts_loop fr dt x_pos stack_downward current_y rest
      else
        let alpha := fade_alpha t' in
        let next_y :=
          match toast_window_height fr t' with
          | Some window_height =>
              if stack_downward
              then add current_y (add window_height TOAST_SPACING)
              else sub current_y (add window_height TOAST_SPACING)
          | None => current_y
          end in
        let (q', draws) :=
          render_toasts_loop fr dt x_pos stack_downward next_y rest in
        (t' :: q', ToastWindow x_pos current_y (mul alpha (literal 95 100)) t' :: draws)
  end.

(** [render_toasts(dt)] *)
Definition render_toasts (dt : float) (fr : Frame) (w : World) : World * list Draw :=
  let v := overlay w in
  match toasts_ v with
  | [] => (w, [])
  | _ =>
      let '(x_pos, y_pos, stack_downward) :=
        toast_origin (position_corner_ v) (viewport fr) in
      let (q', draws) :=
        render_toasts_loop fr dt x_pos stack_downward y_pos (toasts_ v) in
      ({| overlay := set_toasts q' v; imgui := imgui w |}, draws)
  end.

Definition newline : string := String (ascii_of_nat 10) EmptyString.

(** The text of Copy Details. *)
Definition format_details (e : core.ExceptionEvent) : string :=
  ("Critical Error: " ++ core.message e ++ newline ++
   "Type: " ++ core.type_name e ++ newline ++
   "Location: " ++ core.file_name (core.location e) ++ ":" ++
     format_N (core.line (core.location e)) ++ newline ++
   "Function: " ++ core.function_name (core.location e))%string.

(** [render_modal()] *)
Definition render_modal (fr : Frame) (w : World) : World * list Draw :=
  if critical_popup_open (imgui w) then
    let v := overlay w in
    let shown := CriticalErrorPopup (modal_error_ v) in
    let g1 :=
      if copy_details_pressed fr then
        match modal_error_ v with
        | Some e => SetClipboardText (format_details e) (imgui w)
        | None => imgui w
        end
      else imgui w in
    let (v2, g2) :=
      if view_logs_pressed fr
      then (set_modal_error None v, CloseCurrentPopup g1)
      else (v, g1) in
    let (v3, g3) :=
      if continue_pressed fr
      then (set_modal_error None v2, CloseCurrentPopup g2)
      else (v2, g2) in
    ({| overlay := v3; imgui := g3 |}, [shown])
  else (w, []).

(** [render_statistics_window()] *)
Definition render_statistics_window (fr : Frame) (w : World) : World * list Draw :=
  let v :=
    set_show_statistics (show_statistics_ (overlay w) && negb (statistics_closed fr))
      (overlay w) in
  if statistics_begin fr then
    let shown :=
      StatisticsWindow (error_count_ v) (warning_count_ v) (info_count_ v)
        (List.length (toasts_ v)) in
    let v' := if clear_all_pressed fr then clear v else v in
    ({| overlay := v'; imgui := imgui w |}, [shown])
  else ({| overlay := v; imgui := imgui w |}, []).

(** [render(dt)] *)
Definition render (dt : float) (fr : Frame) (w : World) : World * list Draw :=
  let (w1, d1) := render_toasts dt fr w in
  let (w2, d2) := render_modal fr w1 in
  if show_statistics_ (overlay w2) then
    let (w3, d3) := render_statistics_window fr w2 in
    (w3, d1 ++ d2 ++ d3)
  else (w2, d1 ++ d2).

(** Successive frames, each with its delta time. *)
Fixpoint render_frames (frames : list (float * Frame)) (w : World) : World :=
  match frames with
  | [] => w
  | (dt, fr) :: rest => render_frames rest (fst (render dt fr w))
  end.

(** The observer the constructor registers:
    [if (enabled_) on_exception(event);] *)
Definition observer : core.Observer World :=
  fun event w => if enabled_ (overlay w) then on_exception event w else w.

(** The constructor: a visualizer with its initial members, registered with
    the handler. *)
Definition construct : core.Call World unit := core.add_observer observer.

End visualizer.

(** ** The vocabulary of the statements

    The definitions the theorems are stated with: those that follow the
    words of the specification, to be compared with the definitions above,
    which follow the code; the life of one toast over successive frames; the
    values the examples run on. *)

Module spec.

Import Float32.

(** The classification policy of section 4.1, rule by rule, first match
    wins. A failure is in the domain of a class when it is recognised as an
    object of that class: an object of the class or of a class that has it
    as a public, unambiguous base. *)
Definition in_domain (c : core.std_class) (t : core.Thrown) : bool :=
  match t with
  | core.Object ty _ => core.is_a ty c
  | core.Opaque => false
  end.

(** A failure exposes a description when it is recognised as a
    std::exception, the class that declares [what()]. *)
Definition exposes_description (t : core.Thrown) : bool :=
  in_domain core.exception t.

Definition classification (t : core.Thrown) : core.Severity * string :=
  if in_domain core.filesystem_error t then (core.Error, "filesystem_error")
  else if in_domain core.system_error t then (core.Error, "system_error")
  else if in_domain core.runtime_error t then (core.Error, "runtime_error")
  else if exposes_description t then (core.Error, "exception")
  else (core.Critical, "unknown").

(** The text of the event: the description of the failure when it has one. *)
Definition description (t : core.Thrown) : string :=
  match t with
  | core.Object _ w => if exposes_description t then w else "Unknown exception"
  | core.Opaque => "Unknown exception"
  end.

(** The event published for a failure intercepted at [loc] when the clock
    reads [now]. *)
Definition fault_event (t : core.Thrown) (loc : core.source_location) (now : Z)
  : core.ExceptionEvent :=
  {| core.message := description t;
     core.severity := fst (classification t);
     core.location := loc;
     core.timestamp := now;
     core.type_name := snd (classification t) |}.

(** A process after [ev] has been handed to each registered observer. *)
Definition published {W : Type} (ev : core.ExceptionEvent) (p : core.Process W)
  : core.Process W :=
  core.with_world (core.notify (core.observers_ (core.handler p)) ev (core.world p)) p.

(** An observer that only writes its name and the message it received in a
    journal. *)
Definition journal (name : string) : core.Observer (list (string * string)) :=
  fun ev log => log ++ [(name, core.message ev)].

(** The process after [O1], then [O2] have been registered. *)
Definition registered {W : Type} (O1 O2 : core.Observer W) (p : core.Process W)
  : core.Process W :=
  snd (core.add_observer O2 (snd (core.add_observer O1 p))).

(** A callable without arguments that returns [void]: it throws [t] and
    does nothing else. *)
Definition throwing {W : Type} (t : core.Thrown) : unit -> core.Call W unit :=
  fun _ p => (core.Threw t, p).

(** Concrete inputs for the examples. *)
Definition here : core.source_location :=
  core.mk_source_location "/src/io/loader.cpp" 42 7 "load".

Definition two_journals : core.Process (list (string * string)) :=
  registered (journal "O1") (journal "O2")
    {| core.handler := core.initial_handler; core.world := []; core.steady_clock := 0 |}.

(** [std::ios_base::failure], a class derived from std::system_error. *)
Definition ios_failure : core.Thrown :=
  core.Object
    (core.Derived "std::ios_base::failure" core.public_base (core.Std core.system_error))
    "disk full".

(** The overlay after it has received the events of [evs], first to last. *)
Definition deliver (evs : list core.ExceptionEvent) (w : visualizer.World)
  : visualizer.World :=
  fold_left (fun w' e => visualizer.on_exception e w') evs w.

(** The [k] last entries of a queue, in the order of the queue. *)
Definition most_recent {A : Type} (k : nat) (q : list A) : list A :=
  skipn (List.length q - k) q.

(** [clear()] on the visualizer of a world: the toolkit is not touched. *)
Definition cleared (w : visualizer.World) : visualizer.World :=
  {| visualizer.overlay := visualizer.clear (visualizer.overlay w);
     visualizer.imgui := visualizer.imgui w |}.

(** The values in a list of options, in order. *)
Fixpoint omap {A B : Type} (f : A -> option B) (l : list A) : list B :=
  match l with
  | [] => []
  | a :: rest =>
      match f a with
      | Some b => b :: omap f rest
      | None => omap f rest
      end
  end.

(** One frame in the life of one toast: its remaining lifetime decreases by
    the delta time, in single precision, and the toast is dropped when the
    difference is less than or equal to zero. *)
Definition tick (dt : float) (t : visualizer.Toast) : option visualizer.Toast :=
  let t' := visualizer.set_lifetime (sub (visualizer.lifetime t) dt) t in
  if leb (visualizer.lifetime t') zero then None else Some t'.

(** Successive frames in the life of one toast. *)
Fixpoint age (dts : list float) (t : visualizer.Toast) : option visualizer.Toast :=
  match dts with
  | [] => Some t
  | dt :: rest =>
      match tick dt t with
      | Some t' => age rest t'
      | None => None
      end
  end.

(** A remaining lifetime [l] outlives the frames of [dts]: no subtraction
    leaves a value less than or equal to zero (a comparison that is false
    on NaN). *)
Fixpoint outlives (l : float) (dts : list float) : bool :=
  match dts with
  | [] => true
  | dt :: rest => negb (leb (sub l dt) zero) && outlives (sub l dt) rest
  end.

(** The exact sum of finite delta times, in lowest terms. *)
Fixpoint elapsed (dts : list float) : option Q :=
  match dts with
  | [] => Some (0 # 1)
  | dt :: rest =>
      match to_Q dt, elapsed rest with
      | Some q, Some s => Some (Qred (q + s))
      | _, _ => None
      end
  end.

(** The fade with windows of fixed length: the last half second and the
    first three tenths of a second, the test for the end first. *)
Definition fixed_window_alpha (initial remaining : float) : float :=
  if ltb remaining (literal 5 10) then div remaining (literal 5 10)
  else if ltb (sub initial (literal 3 10)) remaining
       then div (sub initial remaining) (literal 3 10)
       else one.

Definition Qltb (x y : Q) : bool := negb (Qle_bool y x).

(** The fade with windows that are the fractions [p_in] and [p_out] of the
    initial lifetime [L], in exact arithmetic: a linear rise from 0 to 1
    while the elapsed time is below [p_in * L], a linear fall to 0 while
    the remaining time [l] is below [p_out * L], 1 in between.
    [fall_first] says which window is looked at first where they overlap. *)
Definition proportional_alpha (fall_first : bool) (p_in p_out L l : Q) : Q :=
  let rising := Qltb (L - l) (p_in * L) in
  let falling := Qltb l (p_out * L) in
  let rise := ((L - l) / (p_in * L))%Q in
  let fall := (l / (p_out * L))%Q in
  if fall_first
  then (if falling then fall else if rising then rise else 1 # 1)
  else (if rising then rise else if falling then fall else 1 # 1).

(** A float is within one hundredth of a rational number. *)
Definition within_a_hundredth (x : float) (q : Q) : Prop :=
  match to_Q x with
  | Some v => (v - (1 # 100) <= q /\ q <= v + (1 # 100))%Q
  | None => False
  end.

(** What a window of a toast shows: the background alpha and the toast. *)
Definition toast_windows (draws : list visualizer.Draw)
  : list (float * visualizer.Toast) :=
  omap (fun d => match d with
                 | visualizer.ToastWindow _ _ a t => Some (a, t)
                 | _ => None
                 end) draws.

(** Concrete inputs for the examples. *)
Definition warn (msg : string) : core.ExceptionEvent :=
  core.mk_ExceptionEvent msg core.Warn here 0 "manual_report".

Definition critical (msg : string) : core.ExceptionEvent :=
  core.mk_ExceptionEvent msg core.Critical here 0 "manual_report".

Definition fresh : visualizer.World :=
  {| visualizer.overlay := visualizer.initial_visualizer;
     visualizer.imgui := visualizer.mk_ImGui false "" |}.

(** A frame of a 1280 by 720 viewport in which no button is pressed. *)
Definition quiet : visualizer.Frame :=
  visualizer.mk_Frame
    (visualizer.mk_Viewport zero zero (of_Z 1280) (of_Z 720))
    (fun _ => Some (of_Z 60)) false false false false false false.

(** [1e-7f], and [3.9999998f], the float just below 4. *)
Definition tiny : float := literal 1 10000000.
Definition below_four : float := S754_finite false 16777215 (-22).

Definition toast_of (initial remaining : float) : visualizer.Toast :=
  visualizer.mk_Toast "message" "loader.cpp:42" "manual_report"
    remaining initial (visualizer.severity_to_color core.Warn) core.Warn.

End spec.

(** ** The overlay in use

    What happens to an overlay between its construction and its end: events
    arrive through the observer it registered, the host renders frames,
    clears, and changes the configuration. *)

Module session.

Import Float32.
Import visualizer.

Definition on_overlay (f : ExceptionVisualizer -> ExceptionVisualizer) (w : World)
  : World :=
  {| overlay := f (overlay w); imgui := imgui w |}.

Inductive Op : Type :=
  | Event (ev : core.ExceptionEvent)
  | RenderFrame (dt : float) (fr : Frame)
  | Clear
  | SetEnabled (enabled : bool)
  | SetMaxToasts (max : N)
  | SetToastLifetime (seconds : float)
  | SetPositionCorner (corner : Z).

Definition step (op : Op) (w : World) : World * list Draw :=
  match op with
  | Event ev => (observer ev w, [])
  | RenderFrame dt fr => render dt fr w
  | Clear => (spec.cleared w, [])
  | SetEnabled enabled => (on_overlay (set_enabled enabled) w, [])
  | SetMaxToasts max => (on_overlay (set_max_toasts max) w, [])
  | SetToastLifetime seconds => (on_overlay (set_toast_lifetime seconds) w, [])
  | SetPositionCorner corner => (on_overlay (set_position_corner corner) w, [])
  end.

(** The world after the operations, and everything drawn on the way. *)
Fixpoint run (ops : list Op) (w : World) : World * list Draw :=
  match ops with
  | [] => (w, [])
  | op :: rest =>
      let (w1, d1) := step op w in
      let (w2, d2) := run rest w1 in
      (w2, d1 ++ d2)
  end.

Definition is_event (op : Op) : bool :=
  match op with
  | Event _ => true
  | _ => false
  end.

Definition is_set_max_toasts (op : Op) : bool :=
  match op with
  | SetMaxToasts _ => true
  | _ => false
  end.

(** The three counters of an overlay. *)
Definition counters (v : ExceptionVisualizer) : N * N * N :=
  (error_count_ v, warning_count_ v, info_count_ v).

Definition counts_as_error (sev : core.Severity) : bool :=
  match sev with
  | core.Error | core.Critical => true
  | _ => false
  end.

Definition counts_as_warning (sev : core.Severity) : bool :=
  match sev with
  | core.Warn => true
  | _ => false
  end.

Definition counts_as_info (sev : core.Severity) : bool :=
  match sev with
  | core.Info | core.Debug | core.Trace => true
  | _ => false
  end.

(** How many events of [evs] have a severity in the class [which]. *)
Definition tally (which : core.Severity -> bool) (evs : list core.ExceptionEvent) : N :=
  N.of_nat (List.length (filter (fun e => which (core.severity e)) evs)).

(** A pending event is a critical one and its popup is open. *)
Definition modal_consistent (w : World) : Prop :=
  forall e : core.ExceptionEvent,
    modal_error_ (overlay w) = Some e ->
    core.severity e = core.Critical /\ critical_popup_open (imgui w) = true.

(** A toast as [on_exception] makes them: not critical, with the colour of
    its severity. *)
Definition toast_well_formed (t : Toast) : Prop :=
  severity t <> core.Critical /\ color t = severity_to_color (severity t).

Definition is_toast_window (d : Draw) : bool :=
  match d with
  | ToastWindow _ _ _ _ => true
  | _ => false
  end.

Definition is_statistics_window (d : Draw) : bool :=
  match d with
  | StatisticsWindow _ _ _ _ => true
  | _ => false
  end.

(** The windows of the toasts that stay, from the first position on: each
    takes the place the one before it leaves. *)
Fixpoint layout (fr : Frame) (x_pos : float) (stack_downward : bool)
  (current_y : float) (staying : list Toast) : list Draw :=
  match staying with
  | [] => []
  | t :: rest =>
      let next_y :=
        match toast_window_height fr t with
        | Some window_height =>
            if stack_downward
            then add current_y (add window_height TOAST_SPACING)
            else sub current_y (add window_height TOAST_SPACING)
        | None => current_y
        end in
      ToastWindow x_pos current_y (mul (fade_alpha t) (literal 95 100)) t
        :: layout fr x_pos stack_downward next_y rest
  end.

(** NaN, as a delta time or as a remaining lifetime. *)
Definition nan : float := S754_nan.

(** A toast but for its remaining lifetime. *)
Definition content (t : Toast) : Toast := set_lifetime zero t.

(** [sub] is a subsequence of [l]. *)
Inductive subsequence {A : Type} : list A -> list A -> Prop :=
  | subsequence_nil : subsequence [] []
  | subsequence_keep (a : A) (sub l : list A) :
      subsequence sub l -> subsequence (a :: sub) (a :: l)
  | subsequence_drop (a : A) (sub l : list A) :
      subsequence sub l -> subsequence sub (a :: l).

(** A process with one overlay: its observer is the only one registered. *)
Definition with_overlay (w : World) (now : Z) : core.Process World :=
  snd (construct {| core.handler := core.initial_handler;
                    core.world := w; core.steady_clock := now |}).

End session.

(** ** The earlier variant of the toast window

    src/visualizer/exception_visualizer.cpp fills the window of a toast with
    the colour of its border, unpacked channel by channel, at alpha 200. *)

Module legacy.

(** [IM_COL32((color >> 0) & 0xFF, (color >> 8) & 0xFF,
              (color >> 16) & 0xFF, 200)] *)
Definition window_background (color : Z) : Z :=
  visualizer.IM_COL32
    (Z.land (Z.shiftr color 0) 255)
    (Z.land (Z.shiftr color 8) 255)
    (Z.land (Z.shiftr color 16) 255)
    200.

End legacy.

(** ** gs::SceneRenderer: the ring settings

    include/visualizer/scene_renderer.hpp, the part of the class that holds
    [ring_config_]. [glm::clamp], [glm::min] and [glm::max] on scalars are
    those of GLM's func_common. *)

Module scene.

Import Float32.

Inductive SplatRenderMode : Type :=
  | CENTERS
  | RINGS.

(** [glm::vec4] *)
Record vec4 : Type := mk_vec4 {
  r : float;
  g : float;
  b : float;
  a : float
}.

Record SplatRenderConfig : Type := mk_SplatRenderConfig {
  mode : SplatRenderMode;
  ring_size : float;
  selection_alpha : float;
  show_overlay : bool;
  selected_color : vec4;
  unselected_color : vec4;
  locked_color : vec4
}.

(** The default member initialisers. *)
Definition default_config : SplatRenderConfig :=
  {| mode := CENTERS;
     ring_size := literal 4 100;
     selection_alpha := one;
     show_overlay := true;
     selected_color := mk_vec4 one one (literal 2 10) one;
     unselected_color := mk_vec4 (literal 5 10) (literal 5 10) (literal 5 10) (literal 3 10);
     locked_color := mk_vec4 (literal 8 10) (literal 2 10) (literal 2 10) (literal 8 10) |}.

(** [glm::min(x, y)] is [(y < x) ? y : x], [glm::max(x, y)] is
    [(x < y) ? y : x], [glm::clamp(x, lo, hi)] is [min(max(x, lo), hi)]. *)
Definition glm_min (x y : float) : float := if ltb y x then y else x.
Definition glm_max (x y : float) : float := if ltb x y then y else x.
Definition glm_clamp (x lo hi : float) : float := glm_min (glm_max x lo) hi.

Definition setRingMode (m : SplatRenderMode) (c : SplatRenderConfig) : SplatRenderConfig :=
  {| mode := m; ring_size := ring_size c; selection_alpha := selection_alpha c;
     show_overlay := show_overlay c; selected_color := selected_color c;
     unselected_color := unselected_color c; locked_color := locked_color c |}.

Definition setRingSize (size : float) (c : SplatRenderConfig) : SplatRenderConfig :=
  {| mode := mode c; ring_size := glm_clamp size zero one;
     selection_alpha := selection_alpha c;
     show_overlay := show_overlay c; selected_color := selected_color c;
     unselected_color := unselected_color c; locked_color := locked_color c |}.

Definition setRingSelectionAlpha (alpha : float) (c : SplatRenderConfig)
  : SplatRenderConfig :=
  {| mode := mode c; ring_size := ring_size c;
     selection_alpha := glm_clamp alpha zero one;
     show_overlay := show_overlay c; selected_color := selected_color c;
     unselected_color := unselected_color c; locked_color := locked_color c |}.

Definition setRingShowOverlay (show : bool) (c : SplatRenderConfig) : SplatRenderConfig :=
  {| mode := mode c; ring_size := ring_size c; selection_alpha := selection_alpha c;
     show_overlay := show; selected_color := selected_color c;
     unselected_color := unselected_color c; locked_color := locked_color c |}.

Definition setRingSelectedColor (color : vec4) (c : SplatRenderConfig) : SplatRenderConfig :=
  {| mode := mode c; ring_size := ring_size c; selection_alpha := selection_alpha c;
     show_overlay := show_overlay c; selected_color := color;
     unselected_color := unselected_color c; locked_color := locked_color c |}.

Definition setRingUnselectedColor (color : vec4) (c : SplatRenderConfig)
  : SplatRenderConfig :=
  {| mode := mode c; ring_size := ring_size c; selection_alpha := selection_alpha c;
     show_overlay := show_overlay c; selected_color := selected_color c;
     unselected_color := color; locked_color := locked_color c |}.

Definition setRingLockedColor (color : vec4) (c : SplatRenderConfig) : SplatRenderConfig :=
  {| mode := mode c; ring_size := ring_size c; selection_alpha := selection_alpha c;
     show_overlay := show_overlay c; selected_color := selected_color c;
     unselected_color := unselected_color c; locked_color := color |}.

Definition getRingMode (c : SplatRenderConfig) : SplatRenderMode := mode c.
Definition getRingSize (c : SplatRenderConfig) : float := ring_size c.
Definition getRingSelectionAlpha (c : SplatRenderConfig) : float := selection_alpha c.
Definition getRingShowOverlay (c : SplatRenderConfig) : bool := show_overlay c.
Definition getRingSelectedColor (c : SplatRenderConfig) : vec4 := selected_color c.
Definition getRingUnselectedColor (c : SplatRenderConfig) : vec4 := unselected_color c.
Definition getRingLockedColor (c : SplatRenderConfig) : vec4 := locked_color c.

(** *** gs::RingModePanel (src/visualizer/gui/ring_mode_panel.cpp)

    What the widgets of one frame answer: a slider, a checkbox or a colour
    editor gives the new value when it was changed in the frame, a button
    says whether it was pressed. *)
Record RingWidgets : Type := mk_RingWidgets {
  ring_thickness : option float;
  selection_alpha_slider : option float;
  show_selection_overlay : option bool;
  selected_edit : option vec4;
  unselected_edit : option vec4;
  locked_edit : option vec4;
  reset_pressed : bool
}.

Definition when_changed {A : Type} (edit : option A)
  (set : A -> SplatRenderConfig -> SplatRenderConfig) (c : SplatRenderConfig)
  : SplatRenderConfig :=
  match edit with
  | Some v => set v c
  | None => c
  end.

(** [renderRingSettings()] on the configuration of the renderer. *)
Definition renderRingSettings (ws : RingWidgets) (c : SplatRenderConfig)
  : SplatRenderConfig :=
  let c1 := when_changed (ring_thickness ws) setRingSize c in
  let c2 := when_changed (selection_alpha_slider ws) setRingSelectionAlpha c1 in
  when_changed (show_selection_overlay ws) setRingShowOverlay c2.

(** [renderColorControls()] on the configuration of the renderer. *)
Definition renderColorControls (ws : RingWidgets) (c : SplatRenderConfig)
  : SplatRenderConfig :=
  let c1 := when_changed (selected_edit ws) setRingSelectedColor c in
  let c2 := when_changed (unselected_edit ws) setRingUnselectedColor c1 in
  let c3 := when_changed (locked_edit ws) setRingLockedColor c2 in
  if reset_pressed ws then
    setRingLockedColor (mk_vec4 (literal 8 10) (literal 2 10) (literal 2 10) (literal 8 10))
      (setRingUnselectedColor
         (mk_vec4 (literal 5 10) (literal 5 10) (literal 5 10) (literal 3 10))
         (setRingSelectedColor (mk_vec4 one one (literal 2 10) one) c3))
  else c3.

(** A value between 0 and 1, both included. *)
Definition in_unit_range (x : float) : Prop := leb zero x = true /\ leb x one = true.

Definition is_nan (x : float) : bool :=
  match x with
  | S754_nan => true
  | _ => false
  end.

End scene.

(** ** gs::GSViewer: the parts of the main loop without OpenGL

    src/visualizer/gs_viewer.cpp: [limitFrameRate], [updateWindowSize] and
    the loop of [setDataset] that marks the test cameras. *)

Module viewer.

(** [limitFrameRate()]. Times are readings of the steady clock in
    nanoseconds: [now] at the entry, [resumed] after the sleep, if any.
    The result is the duration given to [sleep_for], in microseconds, if it
    is called, and the new [last_frame_time_]; there is none when
    [target_fps_] is 0, where [1000000 / target_fps_] has no value. The two
    divisions truncate. [target_fps_] has the type of the parameter of
    [setTargetFPS], [int]; the period of the steady clock is the nanosecond,
    as in libstdc++ and libc++. *)
Definition limitFrameRate (target_fps_ last_frame_time_ now resumed : Z)
  : option (option Z * Z) :=
  if target_fps_ =? 0 then None
  else
    let frame_duration := Z.quot (now - last_frame_time_) 1000 in
    let target_duration := Z.quot 1000000 target_fps_ in
    let slept :=
      if frame_duration <? target_duration
      then Some (target_duration - frame_duration)
      else None in
    Some (slept, resumed).

(** The clock after the sleep: it has not gone back, and a sleep lasted at
    least as long as asked. *)
Definition resumed_after (slept : option Z) (now resumed : Z) : Prop :=
  match slept with
  | Some d => now + 1000 * d <= resumed
  | None => now <= resumed
  end.

(** The sizes the viewport keeps. *)
Record Sizes : Type := mk_Sizes {
  windowSize : Z * Z;
  frameBufferSize : Z * Z
}.

(** [updateWindowSize()], given what GLFW reports; the boolean says whether
    [glViewport] and [onResize] were called. *)
Definition updateWindowSize (winW winH fbW fbH : Z) (s : Sizes) : Sizes * bool :=
  if negb (fst (windowSize s) =? winW) || negb (snd (windowSize s) =? winH)
  then ({| windowSize := (winW, winH); frameBufferSize := (fbW, fbH) |}, true)
  else (s, false).

(** The loop of [setDataset]: [is_test_camera[i] = (i % 8) == 0] for the
    [n] cameras of the dataset. *)
Definition is_test_camera (n : nat) : list bool :=
  map (fun i => Nat.eqb (Nat.modulo i 8) 0) (seq 0 n).

End viewer.

(** * Properties of the reporter *)

Section ReporterProperties.

Context {W : Type}.

Lemma std_depth_base (c b : core.std_class) :
  core.std_base c = Some b -> core.std_depth c = S (core.std_depth b).
Proof. destruct c; intros [= <-]; reflexivity. Qed.

Lemma std_is_a_base (c b : core.std_class) :
  core.std_base c = Some b -> core.std_is_a c b = true.
Proof.
  intros Hb. unfold core.std_is_a. rewrite (std_depth_base c b Hb).
  apply Nat.leb_le. lia.
Qed.

Lemma std_is_a_exception (c : core.std_class) : core.std_is_a c core.exception = true.
Proof. destruct c; reflexivity. Qed.

(** A handler for a class accepts what a handler for a class derived from
    it accepts, whatever the dynamic type. *)
Lemma is_a_base (ty : core.exn_type) (c b : core.std_class) :
  core.std_base c = Some b -> core.is_a ty c = true -> core.is_a ty b = true.
Proof.
  intros Hb.
  induction ty as [c0 | name kind base IH]; simpl.
  - intros Hc. unfold core.std_is_a in *. rewrite (std_depth_base c b Hb) in Hc.
    apply Nat.leb_le in Hc. apply Nat.leb_le. lia.
  - destruct kind; [exact IH | discriminate].
Qed.

(** What a typed handler accepts, the handler for std::exception accepts. *)
Lemma is_a_exception (ty : core.exn_type) (c : core.std_class) :
  core.is_a ty c = true -> core.is_a ty core.exception = true.
Proof.
  intros Hc. destruct c.
  - apply (is_a_base ty core.runtime_error _ eq_refl).
    apply (is_a_base ty core.system_error _ eq_refl).
    apply (is_a_base ty core.filesystem_error _ eq_refl). exact Hc.
  - apply (is_a_base ty core.runtime_error _ eq_refl).
    apply (is_a_base ty core.system_error _ eq_refl). exact Hc.
  - apply (is_a_base ty core.runtime_error _ eq_refl). exact Hc.
  - exact Hc.
Qed.

(** A handler for a base class accepts what a handler for a class derived
    from it accepts. *)
Lemma std_is_a_trans (a b c : core.std_class) :
  core.std_is_a a b = true -> core.std_is_a b c = true -> core.std_is_a a c = true.
Proof.
  unfold core.std_is_a. rewrite !Nat.leb_le. lia.
Qed.

Lemma handle_exception_publishes (msg : string) (sev : core.Severity)
  (type : string) (loc : core.source_location) (p : core.Process W) :
  core.handle_exception msg sev type loc p =
  (core.Returned tt,
   spec.published
     {| core.message := msg; core.severity := sev; core.location := loc;
        core.timestamp := core.steady_clock p; core.type_name := type |} p).
Proof. reflexivity. Qed.

Lemma absorb_returns {R : Type} `{core.Instantiated R} (msg : core.Thrown -> string)
  (sev : core.Severity) (type : string) (loc : core.source_location)
  (t : core.Thrown) (p : core.Process W) :
  core.absorb msg sev type loc t p =
  (core.Returned core.nothing,
   spec.published
     {| core.message := msg t; core.severity := sev; core.location := loc;
        core.timestamp := core.steady_clock p; core.type_name := type |} p).
Proof. reflexivity. Qed.

(** The handler [wrap] selects for a thrown object, and what it publishes. *)
Lemma wrap_handler_selected {R : Type} `{core.Instantiated R}
  (loc : core.source_location) (t : core.Thrown) :
  exists h : core.Thrown -> core.Call W R,
    core.select_handler t (core.wrap_handlers loc) = Some h /\
    forall p, h t p =
      (core.Returned core.nothing,
       spec.published (spec.fault_event t loc (core.steady_clock p)) p).
Proof.
  unfold core.wrap_handlers, spec.fault_event, spec.classification,
    spec.description, spec.exposes_description.
  destruct t as [ty w | ]; simpl.
  - destruct (core.is_a ty core.filesystem_error) eqn:Hfs.
    { rewrite (is_a_exception ty _ Hfs).
      eexists; split; [reflexivity | intro p; reflexivity]. }
    destruct (core.is_a ty core.system_error) eqn:Hsys.
    { rewrite (is_a_exception ty _ Hsys).
      eexists; split; [reflexivity | intro p; reflexivity]. }
    destruct (core.is_a ty core.runtime_error) eqn:Hrt.
    { rewrite (is_a_exception ty _ Hrt).
      eexists; split; [reflexivity | intro p; reflexivity]. }
    destruct (core.is_a ty core.exception) eqn:Hex.
    { eexists; split; [reflexivity | intro p; reflexivity]. }
    eexists; split; [reflexivity | intro p; reflexivity].
  - eexists; split; [reflexivity | intro p; reflexivity].
Qed.

(** What the adapter does, by the outcome of the callable. *)
Lemma wrap_run {A R : Type} `{core.Instantiated R}
  (f : A -> core.Call W R) (loc : core.source_location) (args : A)
  (p : core.Process W) :
  core.wrap f loc args p =
  match f args p with
  | (core.Returned v, p1) => (core.Returned v, p1)
  | (core.Threw t, p1) =>
      (core.Returned core.nothing,
       spec.published (spec.fault_event t loc (core.steady_clock p1)) p1)
  end.
Proof.
  unfold core.wrap, core.try_catch.
  destruct (f args p) as [[v | t] p1]; [reflexivity | ].
  destruct (wrap_handler_selected (R := R) loc t) as [h [Hsel Hrun]].
  rewrite Hsel. apply Hrun.
Qed.

(** C1. When the wrapped callable throws, the adapter publishes exactly the
    event the classification policy describes: severity and category are
    those of the first rule, in the order filesystem, system, runtime, other
    object with a description, anything else, that the thrown object
    matches. *)
Theorem wrap_classifies_first_match {A R : Type} `{core.Instantiated R}
  (f : A -> core.Call W R) (loc : core.source_location) (args : A)
  (p p1 : core.Process W) (t : core.Thrown) :
  f args p = (core.Threw t, p1) ->
  core.wrap f loc args p =
  (core.Returned core.nothing,
   spec.published (spec.fault_event t loc (core.steady_clock p1)) p1).
Proof.
  intros Hthrow. rewrite wrap_run, Hthrow. reflexivity.
Qed.

(** C2. The lambda of [wrap] can be instantiated for a callable that
    returns [void], and for no other. In an instance the adapter always
    returns: what the callable returned, with the state the callable left,
    when the callable returns; nothing, once the event is published, when
    the callable throws. No thrown object leaves it. For a callable that
    returns objects of a type [T], each catch block ends with [return {};],
    from which [-> decltype(auto)] has no type to deduce: the lambda has no
    instance, and no adapter returns the value of such a callable or a
    default value of [T]. *)
Theorem wrap_absorbs_for_void_only :
  (forall (A R : Type) (I : core.Instantiated R) (f : A -> core.Call W R)
          (loc : core.source_location) (args : A) (p : core.Process W),
     exists (r : R) (p' : core.Process W),
       core.wrap f loc args p = (core.Returned r, p') /\
       match f args p with
       | (core.Returned v, p1) => r = v /\ p' = p1
       | (core.Threw t, p1) =>
           r = core.nothing /\
           p' = spec.published (spec.fault_event t loc (core.steady_clock p1)) p1
       end) /\
  (forall (A : Type) (f : A -> core.Call W unit) (loc : core.source_location)
          (args : A) (p : core.Process W),
     exists p' : core.Process W, core.wrap f loc args p = (core.Returned tt, p')) /\
  (forall T : Type,
     core.end_of_catch (core.object T) = core.return_braces /\
     core.well_formed (core.object T) = false) /\
  (forall (T : Type) (I : core.Instantiated T), @core.result T I <> core.object T).
Proof.
  split; [ | split; [ | split]].
  - intros A R I f loc args p. rewrite wrap_run.
    destruct (f args p) as [[v | t] p1]; eexists _, _; repeat split.
  - intros A f loc args p. rewrite wrap_run.
    destruct (f args p) as [[[] | t] p1]; eexists; reflexivity.
  - intros T. split; reflexivity.
  - intros T I Hobject.
    pose proof (@core.instantiates T I) as Hwf.
    rewrite Hobject in Hwf. discriminate Hwf.
Qed.


Lemma notify_app (obs1 obs2 : list (core.Observer W)) (ev : core.ExceptionEvent)
  (w : W) :
  core.notify (obs1 ++ obs2) ev w = core.notify obs2 ev (core.notify obs1 ev w).
Proof. unfold core.notify. apply fold_left_app. Qed.

(** The process after [O1], then [O2] have been registered. *)
Lemma observers_after_registration (O1 O2 : core.Observer W) (p : core.Process W) :
  core.observers_ (core.handler (spec.registered O1 O2 p)) =
  core.observers_ (core.handler p) ++ [O1; O2].
Proof. simpl. rewrite <- app_assoc. reflexivity. Qed.

Lemma published_after_registration (O1 O2 : core.Observer W)
  (ev : core.ExceptionEvent) (p : core.Process W) :
  core.world (spec.published ev (spec.registered O1 O2 p)) =
  O2 ev (O1 ev (core.world (spec.published ev p))).
Proof.
  unfold spec.published, spec.registered. simpl.
  rewrite !notify_app. reflexivity.
Qed.


End ReporterProperties.

Lemma wrap_classifies_first_match_witness :
  spec.throwing spec.ios_failure tt spec.two_journals =
    (core.Threw spec.ios_failure, spec.two_journals) /\
  core.wrap (spec.throwing spec.ios_failure) spec.here tt spec.two_journals =
    (core.Returned tt,
     spec.published (spec.fault_event spec.ios_failure spec.here 0) spec.two_journals).
Proof.
  split; [reflexivity | ].
  exact (wrap_classifies_first_match (spec.throwing spec.ios_failure) spec.here tt
           spec.two_journals spec.two_journals spec.ios_failure eq_refl).
Defined.

(** An object of a class derived from std::system_error is a system error,
    not a runtime error, although the handler for runtime errors would
    accept it: the handler written first wins. Both journals receive the
    event once, [O1] first. *)
Example wrap_ios_failure :
  spec.classification spec.ios_failure = (core.Error, "system_error") /\
  core.matches spec.ios_failure (core.Catch core.runtime_error) = true /\
  core.wrap (spec.throwing spec.ios_failure) spec.here tt spec.two_journals =
    (core.Returned tt,
     core.with_world [("O1", "disk full"); ("O2", "disk full")] spec.two_journals).
Proof. repeat split. Qed.

(** The five rules, on an object of each kind; an object whose
    std::runtime_error base is hidden is recognised by none of the first
    four. *)
Example classification_by_rule :
  spec.classification (core.Object (core.Std core.filesystem_error) "no such file")
    = (core.Error, "filesystem_error") /\
  spec.classification (core.Object (core.Std core.system_error) "EIO")
    = (core.Error, "system_error") /\
  spec.classification
    (core.Object
       (core.Derived "std::range_error" core.public_base (core.Std core.runtime_error))
       "range")
    = (core.Error, "runtime_error") /\
  spec.classification
    (core.Object
       (core.Derived "std::logic_error" core.public_base (core.Std core.exception))
       "logic")
    = (core.Error, "exception") /\
  spec.classification
    (core.Object
       (core.Derived "LoadError" core.hidden_base (core.Std core.runtime_error))
       "bad header")
    = (core.Critical, "unknown") /\
  spec.classification core.Opaque = (core.Critical, "unknown").
Proof. repeat split. Qed.

Example wrap_opaque :
  spec.classification core.Opaque = (core.Critical, "unknown") /\
  core.wrap (spec.throwing core.Opaque) spec.here tt spec.two_journals =
    (core.Returned tt,
     core.with_world [("O1", "Unknown exception"); ("O2", "Unknown exception")]
       spec.two_journals).
Proof. repeat split. Qed.

(** * Properties of the overlay *)

Section OverlayProperties.

Import Float32.
Import visualizer.

(** ** The queue of toasts *)

Lemma limit_toasts_most_recent (max : N) (q : list Toast) :
  limit_toasts max q = spec.most_recent (N.to_nat max) q.
Proof.
  unfold spec.most_recent.
  induction q as [ | t rest IH]; [reflexivity | ].
  cbn [limit_toasts].
  destruct (N.ltb_spec max (N.of_nat (List.length (t :: rest)))) as [Hlt | Hge].
  - rewrite IH. cbn [List.length] in *.
    replace (S (List.length rest) - N.to_nat max)%nat
      with (S (List.length rest - N.to_nat max)) by lia.
    reflexivity.
  - cbn [List.length] in *.
    replace (S (List.length rest) - N.to_nat max)%nat with O by lia.
    reflexivity.
Qed.

Lemma most_recent_length {A : Type} (k : nat) (q : list A) :
  List.length (spec.most_recent k q) = Nat.min (List.length q) k.
Proof. unfold spec.most_recent. rewrite length_skipn. lia. Qed.

Lemma most_recent_app {A : Type} (k : nat) (a b : list A) :
  spec.most_recent k (spec.most_recent k a ++ b) = spec.most_recent k (a ++ b).
Proof.
  unfold spec.most_recent.
  rewrite length_app, length_skipn, length_app.
  destruct (Nat.le_gt_cases (List.length a) k) as [Hle | Hgt].
  - replace (List.length a - k)%nat with O by lia.
    rewrite skipn_0, Nat.sub_0_r. reflexivity.
  - rewrite (skipn_app (List.length a + List.length b - k)).
    rewrite (skipn_app (List.length a - (List.length a - k) + List.length b - k)).
    rewrite length_skipn, skipn_skipn.
    f_equal.
    + f_equal. lia.
    + f_equal. lia.
Qed.

Lemma update_statistics_toasts (sev : core.Severity) (v : ExceptionVisualizer) :
  toasts_ (update_statistics sev v) = toasts_ v /\
  max_toasts_ (update_statistics sev v) = max_toasts_ v /\
  toast_lifetime_ (update_statistics sev v) = toast_lifetime_ v /\
  modal_error_ (update_statistics sev v) = modal_error_ v.
Proof. destruct sev; repeat split. Qed.

Lemma LogLevel_eqb_Critical (sev : core.Severity) :
  core.LogLevel_eqb sev core.Critical = true <-> sev = core.Critical.
Proof. destruct sev; simpl; split; congruence. Qed.

(** What [on_exception] does with an event that is not critical. *)
Lemma on_exception_enqueues (e : core.ExceptionEvent) (w : World) :
  core.severity e <> core.Critical ->
  toasts_ (overlay (on_exception e w)) =
    spec.most_recent (N.to_nat (max_toasts_ (overlay w)))
      (toasts_ (overlay w) ++ [make_toast (toast_lifetime_ (overlay w)) e]) /\
  max_toasts_ (overlay (on_exception e w)) = max_toasts_ (overlay w) /\
  toast_lifetime_ (overlay (on_exception e w)) = toast_lifetime_ (overlay w).
Proof.
  intros Hsev. unfold on_exception.
  destruct (core.LogLevel_eqb (core.severity e) core.Critical) eqn:Heq.
  - apply LogLevel_eqb_Critical in Heq. contradiction.
  - destruct (update_statistics_toasts (core.severity e) (overlay w))
      as [Hq [Hmax [Hlife _]]].
    cbn [overlay set_toasts toasts_ max_toasts_ toast_lifetime_].
    rewrite Hq, Hmax, Hlife, limit_toasts_most_recent. repeat split.
Qed.

(** The queue is within its bound after every event that is enqueued. *)
Lemma on_exception_bounded (e : core.ExceptionEvent) (w : World) :
  core.severity e <> core.Critical ->
  (List.length (toasts_ (overlay (on_exception e w)))
   <= N.to_nat (max_toasts_ (overlay w)))%nat.
Proof.
  intros Hsev. destruct (on_exception_enqueues e w Hsev) as [Hq _].
  rewrite Hq, most_recent_length. lia.
Qed.

Lemma deliver_most_recent (evs : list core.ExceptionEvent) :
  forall w : World,
  Forall (fun e => core.severity e <> core.Critical) evs ->
  (List.length (toasts_ (overlay w)) <= N.to_nat (max_toasts_ (overlay w)))%nat ->
  toasts_ (overlay (spec.deliver evs w)) =
    spec.most_recent (N.to_nat (max_toasts_ (overlay w)))
      (toasts_ (overlay w) ++ map (make_toast (toast_lifetime_ (overlay w))) evs).
Proof.
  induction evs as [ | e evs IH]; intros w Hall Hlen.
  - cbn [spec.deliver fold_left map]. rewrite app_nil_r.
    unfold spec.most_recent.
    replace (List.length (toasts_ (overlay w)) - N.to_nat (max_toasts_ (overlay w)))%nat
      with O by lia.
    reflexivity.
  - inversion Hall as [ | e' evs' He Hevs]; subst.
    destruct (on_exception_enqueues e w He) as [Hq [Hmax Hlife]].
    change (spec.deliver (e :: evs) w) with (spec.deliver evs (on_exception e w)).
    rewrite IH; [ | exact Hevs | rewrite Hmax; apply on_exception_bounded; exact He].
    rewrite Hmax, Hlife, Hq, most_recent_app.
    cbn [map]. rewrite <- app_assoc. reflexivity.
Qed.

(** C3. [N] events that are not critical are delivered to an overlay whose
    bound is [K] and whose queue is within the bound (an empty queue is).
    Afterwards the queue holds at most [K] toasts: the [K] most recent of
    the toasts it held and the [N] toasts enqueued, oldest first, the ones
    before them having left from the front. From an empty queue these are
    the [min N K] toasts enqueued last. *)
Theorem toast_queue_keeps_most_recent (evs : list core.ExceptionEvent) (w : World) :
  Forall (fun e => core.severity e <> core.Critical) evs ->
  (List.length (toasts_ (overlay w)) <= N.to_nat (max_toasts_ (overlay w)))%nat ->
  let K := N.to_nat (max_toasts_ (overlay w)) in
  let enqueued := map (make_toast (toast_lifetime_ (overlay w))) evs in
  let q := toasts_ (overlay (spec.deliver evs w)) in
  (List.length q <= K)%nat /\
  List.length q = Nat.min (List.length (toasts_ (overlay w)) + List.length evs) K /\
  q = spec.most_recent K (toasts_ (overlay w) ++ enqueued) /\
  exists evicted : list Toast, toasts_ (overlay w) ++ enqueued = evicted ++ q.
Proof.
  intros Hall Hbound K enqueued q.
  assert (Hq : q = spec.most_recent K (toasts_ (overlay w) ++ enqueued)).
  { unfold q. apply deliver_most_recent; assumption. }
  assert (Hlen : List.length q =
                 Nat.min (List.length (toasts_ (overlay w)) + List.length evs) K).
  { rewrite Hq, most_recent_length, length_app. unfold enqueued.
    rewrite length_map. reflexivity. }
  split; [lia | ]. split; [exact Hlen | ]. split; [exact Hq | ].
  exists (firstn (List.length (toasts_ (overlay w) ++ enqueued) - K)
            (toasts_ (overlay w) ++ enqueued)).
  rewrite Hq. unfold spec.most_recent. symmetry. apply firstn_skipn.
Qed.

(** ** Critical events *)

(** C4. A critical event leaves the queue of toasts as it was and becomes
    the pending modal, whatever was pending; after two critical events the
    second one is the pending modal. *)
Theorem critical_event_takes_modal_slot (e : core.ExceptionEvent) (w : World) :
  core.severity e = core.Critical ->
  toasts_ (overlay (on_exception e w)) = toasts_ (overlay w) /\
  modal_error_ (overlay (on_exception e w)) = Some e /\
  forall e1 : core.ExceptionEvent,
    toasts_ (overlay (on_exception e (on_exception e1 w))) =
      toasts_ (overlay (on_exception e1 w)) /\
    modal_error_ (overlay (on_exception e (on_exception e1 w))) = Some e.
Proof.
  intros Hsev.
  assert (Hone : forall w', toasts_ (overlay (on_exception e w')) = toasts_ (overlay w') /\
                            modal_error_ (overlay (on_exception e w')) = Some e).
  { intros w'. unfold on_exception. rewrite Hsev. cbn. repeat split. }
  split; [apply Hone | ]. split; [apply Hone | ].
  intros e1. apply Hone.
Qed.

(** ** Statistics *)

(** C10. Every event adds one, modulo 2^64, to one counter, chosen by its
    severity, and leaves the two others: errors for Error and Critical,
    warnings for Warn, infos for Info, Debug and Trace. The counter so
    chosen never keeps its value. The critical branch comes after the
    count, so a critical event is counted as an error, as [get_error_count]
    tells. *)
Theorem on_exception_counts_once (e : core.ExceptionEvent) (w : World) :
  let v := overlay w in
  let v' := overlay (on_exception e w) in
  (error_count_ v', warning_count_ v', info_count_ v') =
  match core.severity e with
  | core.Error | core.Critical =>
      (((error_count_ v + 1) mod 2 ^ 64)%N, warning_count_ v, info_count_ v)
  | core.Warn =>
      (error_count_ v, ((warning_count_ v + 1) mod 2 ^ 64)%N, info_count_ v)
  | core.Info | core.Debug | core.Trace =>
      (error_count_ v, warning_count_ v, ((info_count_ v + 1) mod 2 ^ 64)%N)
  end /\
  get_error_count v' =
  match core.severity e with
  | core.Error | core.Critical => ((get_error_count v + 1) mod 2 ^ 64)%N
  | _ => get_error_count v
  end /\
  (error_count_ v', warning_count_ v', info_count_ v') <>
  (error_count_ v, warning_count_ v, info_count_ v).
Proof.
  assert (Hmoves : forall c : N, ((c + 1) mod 2 ^ 64)%N <> c).
  { intros c Heq.
    pose proof (N.mod_upper_bound (c + 1) (2 ^ 64) ltac:(discriminate)) as Hlt.
    destruct (N.lt_ge_cases (c + 1) (2 ^ 64)) as [Hsmall | Hlarge].
    - rewrite N.mod_small in Heq by exact Hsmall. lia.
    - rewrite Heq in Hlt.
      assert (Hmax : (c + 1 = 2 ^ 64)%N) by lia.
      rewrite Hmax, N.Div0.mod_same in Heq. lia. }
  unfold on_exception, get_error_count.
  destruct (core.severity e) eqn:Hsev; cbn -[N.modulo N.pow];
    (split; [reflexivity | split; [reflexivity | ]]);
    intros Heq; injection Heq; intros; eapply Hmoves; eassumption.
Qed.

(** Below the largest value of [size_t] the increment is the successor. *)
Lemma size_t_incr_succ (c : N) :
  (c < 2 ^ 64 - 1)%N -> size_t_incr c = (c + 1)%N.
Proof.
  intros Hc. unfold size_t_incr. apply N.mod_small. lia.
Qed.


(** ** Rendering *)

Lemma render_toasts_loop_queue (fr : Frame) (dt x_pos : float) (down : bool)
  (q : list Toast) :
  forall y : float,
  fst (render_toasts_loop fr dt x_pos down y q) = spec.omap (spec.tick dt) q.
Proof.
  induction q as [ | t rest IH]; intros y; [reflexivity | ].
  cbn [render_toasts_loop spec.omap]. unfold spec.tick.
  destruct (leb (lifetime (set_lifetime (sub (lifetime t) dt) t)) zero).
  - apply IH.
  - match goal with
    | |- context [render_toasts_loop fr dt x_pos down ?y' rest] =>
        specialize (IH y');
        destruct (render_toasts_loop fr dt x_pos down y' rest) as [q' draws]
    end.
    cbn [fst] in *. rewrite IH. reflexivity.
Qed.

Lemma render_toasts_loop_windows (fr : Frame) (dt x_pos : float) (down : bool)
  (q : list Toast) :
  forall y : float,
  spec.toast_windows (snd (render_toasts_loop fr dt x_pos down y q)) =
  map (fun t => (mul (spec.fixed_window_alpha (initial_lifetime t) (lifetime t))
                     (literal 95 100), t))
      (fst (render_toasts_loop fr dt x_pos down y q)).
Proof.
  induction q as [ | t rest IH]; intros y; [reflexivity | ].
  cbn [render_toasts_loop].
  destruct (leb (lifetime (set_lifetime (sub (lifetime t) dt) t)) zero).
  - apply IH.
  - match goal with
    | |- context [render_toasts_loop fr dt x_pos down ?y' rest] =>
        specialize (IH y');
        destruct (render_toasts_loop fr dt x_pos down y' rest) as [q' draws]
    end.
    cbn [fst snd] in *. unfold spec.toast_windows in *.
    cbn [spec.omap map]. rewrite IH. reflexivity.
Qed.

Lemma render_toasts_queue (dt : float) (fr : Frame) (w : World) :
  toasts_ (overlay (fst (render_toasts dt fr w))) =
    spec.omap (spec.tick dt) (toasts_ (overlay w)) /\
  modal_error_ (overlay (fst (render_toasts dt fr w))) = modal_error_ (overlay w) /\
  show_statistics_ (overlay (fst (render_toasts dt fr w))) = show_statistics_ (overlay w) /\
  imgui (fst (render_toasts dt fr w)) = imgui w.
Proof.
  unfold render_toasts.
  destruct (toasts_ (overlay w)) as [ | t rest] eqn:Hq.
  - cbn. rewrite Hq. repeat split.
  - destruct (toast_origin (position_corner_ (overlay w)) (viewport fr))
      as [[x_pos y_pos] down].
    pose proof (render_toasts_loop_queue fr dt x_pos down (t :: rest) y_pos) as Hloop.
    destruct (render_toasts_loop fr dt x_pos down y_pos (t :: rest)) as [q' draws].
    cbn [fst] in Hloop. cbn. rewrite Hloop. repeat split.
Qed.

Lemma render_modal_queue (fr : Frame) (w : World) :
  toasts_ (overlay (fst (render_modal fr w))) = toasts_ (overlay w) /\
  show_statistics_ (overlay (fst (render_modal fr w))) = show_statistics_ (overlay w).
Proof.
  unfold render_modal.
  destruct (critical_popup_open (imgui w)); [ | split; reflexivity].
  destruct (view_logs_pressed fr), (continue_pressed fr); split; reflexivity.
Qed.

Lemma render_statistics_window_queue (fr : Frame) (w : World) :
  toasts_ (overlay (fst (render_statistics_window fr w))) = toasts_ (overlay w) \/
  toasts_ (overlay (fst (render_statistics_window fr w))) = [].
Proof.
  unfold render_statistics_window.
  destruct (statistics_begin fr); [ | left; reflexivity].
  destruct (clear_all_pressed fr); [right | left]; reflexivity.
Qed.

(** The queue after one frame: the toasts that outlive the frame, or
    nothing when Clear All was pressed. *)
Lemma render_queue (dt : float) (fr : Frame) (w : World) :
  toasts_ (overlay (fst (render dt fr w))) =
    spec.omap (spec.tick dt) (toasts_ (overlay w)) \/
  toasts_ (overlay (fst (render dt fr w))) = [].
Proof.
  unfold render.
  destruct (render_toasts_queue dt fr w) as [Hq _].
  destruct (render_toasts dt fr w) as [w1 d1]. cbn [fst] in Hq.
  destruct (render_modal_queue fr w1) as [Hm _].
  destruct (render_modal fr w1) as [w2 d2]. cbn [fst] in Hm.
  destruct (show_statistics_ (overlay w2)).
  - destruct (render_statistics_window_queue fr w2) as [Hs | Hs];
      destruct (render_statistics_window fr w2) as [w3 d3]; cbn [fst] in *.
    + left. congruence.
    + right. exact Hs.
  - left. cbn [fst]. congruence.
Qed.

Lemma omap_age_cons (dt : float) (dts : list float) (q : list Toast) :
  spec.omap (spec.age dts) (spec.omap (spec.tick dt) q) = spec.omap (spec.age (dt :: dts)) q.
Proof.
  induction q as [ | t rest IH]; [reflexivity | ].
  cbn [spec.omap spec.age].
  destruct (spec.tick dt t) as [t' | ].
  - cbn [spec.omap]. destruct (spec.age dts t'); rewrite IH; reflexivity.
  - exact IH.
Qed.

Lemma age_app (dts more : list float) :
  forall t : Toast,
  spec.age (dts ++ more) t =
  match spec.age dts t with
  | Some t' => spec.age more t'
  | None => None
  end.
Proof.
  induction dts as [ | dt dts IH]; intros t; [reflexivity | ].
  cbn [app spec.age]. destruct (spec.tick dt t) as [t' | ]; [apply IH | reflexivity].
Qed.

Lemma set_lifetime_same (t : Toast) : set_lifetime (lifetime t) t = t.
Proof. destruct t; reflexivity. Qed.

(** The life of a toast in closed form: it is there after the frames when
    it outlives them, with what the subtractions leave. *)
Lemma age_countdown (dts : list float) :
  forall t : Toast,
  spec.age dts t =
  if spec.outlives (lifetime t) dts
  then Some (set_lifetime (fold_left sub dts (lifetime t)) t)
  else None.
Proof.
  induction dts as [ | dt dts IH]; intros t.
  - cbn. rewrite set_lifetime_same. reflexivity.
  - cbn [spec.age spec.outlives fold_left]. unfold spec.tick.
    cbn [lifetime set_lifetime].
    destruct (leb (sub (lifetime t) dt) zero); [reflexivity | ].
    rewrite IH. cbn [lifetime set_lifetime negb andb].
    destruct (spec.outlives (sub (lifetime t) dt) dts); reflexivity.
Qed.

Lemma outlives_app (dts more : list float) :
  forall l : float,
  spec.outlives l (dts ++ more) =
  spec.outlives l dts && spec.outlives (fold_left sub dts l) more.
Proof.
  induction dts as [ | dt dts IH]; intros l; [reflexivity | ].
  cbn [app spec.outlives fold_left]. rewrite IH, andb_assoc. reflexivity.
Qed.

(** C5, as the code has it. Over any frames, the queue holds the toasts
    whose remaining lifetime, decreased frame after frame in single
    precision, was never found less than or equal to zero, each with what
    the subtractions leave (or the queue is empty, once Clear All was
    pressed): a toast leaves the queue in the first frame whose subtraction
    leaves a value less than or equal to zero, and a toast that has left
    after some frames has left after any further frames. *)
Theorem toasts_expire_by_float_countdown (frames : list (float * Frame)) (w : World) :
  (toasts_ (overlay (render_frames frames w)) =
     spec.omap (spec.age (map fst frames)) (toasts_ (overlay w)) \/
   toasts_ (overlay (render_frames frames w)) = []) /\
  (forall t : Toast,
     spec.age (map fst frames) t =
     if spec.outlives (lifetime t) (map fst frames)
     then Some (set_lifetime (fold_left sub (map fst frames) (lifetime t)) t)
     else None) /\
  (forall (l : float) (more : list float),
     spec.outlives l (map fst frames ++ more) =
     spec.outlives l (map fst frames) &&
     spec.outlives (fold_left sub (map fst frames) l) more).
Proof.
  split; [ | split].
  - revert w. induction frames as [ | [dt fr] rest IH]; intros w.
    + left. cbn. induction (toasts_ (overlay w)) as [ | t q IHq]; [reflexivity | ].
      cbn. f_equal. exact IHq.
    + cbn [render_frames map fst].
      destruct (IH (fst (render dt fr w))) as [Hrest | Hrest].
      * destruct (render_queue dt fr w) as [Hq | Hq]; rewrite Hq in Hrest.
        -- left. rewrite Hrest. apply omap_age_cons.
        -- right. exact Hrest.
      * right. exact Hrest.
  - intros t. apply age_countdown.
  - intros l more. apply outlives_app.
Qed.

Lemma toast_windows_app (d1 d2 : list Draw) :
  spec.toast_windows (d1 ++ d2) = spec.toast_windows d1 ++ spec.toast_windows d2.
Proof.
  unfold spec.toast_windows.
  induction d1 as [ | d rest IH]; [reflexivity | ].
  cbn [app spec.omap]. destruct d; cbn [app]; rewrite IH; reflexivity.
Qed.

Lemma render_modal_windows (fr : Frame) (w : World) :
  spec.toast_windows (snd (render_modal fr w)) = [].
Proof.
  unfold render_modal. destruct (critical_popup_open (imgui w)); [ | reflexivity].
  destruct (view_logs_pressed fr), (continue_pressed fr); reflexivity.
Qed.

Lemma render_statistics_window_windows (fr : Frame) (w : World) :
  spec.toast_windows (snd (render_statistics_window fr w)) = [].
Proof.
  unfold render_statistics_window. destruct (statistics_begin fr); reflexivity.
Qed.

Lemma render_toasts_windows (dt : float) (fr : Frame) (w : World) :
  spec.toast_windows (snd (render_toasts dt fr w)) =
  map (fun t => (mul (spec.fixed_window_alpha (initial_lifetime t) (lifetime t))
                     (literal 95 100), t))
      (spec.omap (spec.tick dt) (toasts_ (overlay w))).
Proof.
  unfold render_toasts.
  destruct (toasts_ (overlay w)) as [ | t rest] eqn:Hq; [reflexivity | ].
  destruct (toast_origin (position_corner_ (overlay w)) (viewport fr))
    as [[x_pos y_pos] down].
  pose proof (render_toasts_loop_windows fr dt x_pos down (t :: rest) y_pos) as Hwin.
  pose proof (render_toasts_loop_queue fr dt x_pos down (t :: rest) y_pos) as Hloop.
  destruct (render_toasts_loop fr dt x_pos down y_pos (t :: rest)) as [q' draws].
  cbn [fst snd] in *. rewrite Hwin, Hloop. reflexivity.
Qed.

(** C8, as the code has it. In a frame, each toast that outlives the frame
    gets one window, in the order of the queue, whose background alpha is
    0.95 times a fade with windows of fixed length: the remaining lifetime
    over 0.5 in the last half second, else the elapsed time over 0.3 in the
    first three tenths of a second, else 1. *)
Theorem toast_windows_fade_over_fixed_durations (dt : float) (fr : Frame) (w : World) :
  spec.toast_windows (snd (render dt fr w)) =
  map (fun t => (mul (spec.fixed_window_alpha (initial_lifetime t) (lifetime t))
                     (literal 95 100), t))
      (spec.omap (spec.tick dt) (toasts_ (overlay w))).
Proof.
  unfold render.
  pose proof (render_toasts_windows dt fr w) as Hw.
  destruct (render_toasts dt fr w) as [w1 d1]. cbn [snd] in Hw.
  pose proof (render_modal_windows fr w1) as Hm.
  destruct (render_modal fr w1) as [w2 d2]. cbn [snd] in Hm.
  destruct (show_statistics_ (overlay w2)).
  - pose proof (render_statistics_window_windows fr w2) as Hs.
    destruct (render_statistics_window fr w2) as [w3 d3]. cbn [snd] in *.
    rewrite !toast_windows_app, Hw, Hm, Hs, !app_nil_r. reflexivity.
  - cbn [snd]. rewrite toast_windows_app, Hw, Hm, app_nil_r. reflexivity.
Qed.

(** ** Clearing *)

(** After [clear()] the queue and the modal slot are empty, the next frame
    has no window for a toast and no popup that shows an event. *)
Lemma clear_empties_queue_and_slot (w : World) (dt : float) (fr : Frame) :
  toasts_ (overlay (spec.cleared w)) = [] /\
  modal_error_ (overlay (spec.cleared w)) = None /\
  spec.toast_windows (snd (render dt fr (spec.cleared w))) = [] /\
  forall e : core.ExceptionEvent,
    ~ In (CriticalErrorPopup (Some e)) (snd (render dt fr (spec.cleared w))).
Proof.
  split; [reflexivity | ]. split; [reflexivity | ].
  unfold render, render_toasts, render_modal, render_statistics_window.
  cbn.
  destruct (critical_popup_open (imgui w)), (view_logs_pressed fr),
    (continue_pressed fr); cbn;
    destruct (show_statistics_ (overlay w)), (statistics_begin fr); cbn;
    (split; [reflexivity | intros e; intuition discriminate]).
Qed.

End OverlayProperties.

Section FadeWindows.

Import Float32.
Import visualizer.

Lemma Qle_bool_false (x y : Q) : Qle_bool x y = false -> (y < x)%Q.
Proof.
  intros H. apply Qnot_le_lt. intros Hle.
  apply Qle_bool_iff in Hle. congruence.
Qed.

Ltac reflect_Qle :=
  repeat match goal with
         | H : Qle_bool _ _ = true |- _ => apply Qle_bool_iff in H
         | H : Qle_bool _ _ = false |- _ => apply Qle_bool_false in H
         end.

(** Windows that are fractions of the initial lifetime treat alike two
    toasts that are equally far, in proportion, through their lifetimes:
    here 5 % through lifetimes of 8 s and of 4 s. *)
Lemma scale_rising (p : Q) :
  spec.Qltb ((8 # 1) - (15938355 # 2097152)) (p * (8 # 1)) =
  spec.Qltb ((4 # 1) - (15938355 # 4194304)) (p * (4 # 1)).
Proof.
  unfold spec.Qltb.
  destruct (Qle_bool (p * (8 # 1)) ((8 # 1) - (15938355 # 2097152))) eqn:E1;
    destruct (Qle_bool (p * (4 # 1)) ((4 # 1) - (15938355 # 4194304))) eqn:E2;
    reflect_Qle; try reflexivity; lra.
Qed.

Lemma scale_falling (p : Q) :
  spec.Qltb (15938355 # 2097152) (p * (8 # 1)) =
  spec.Qltb (15938355 # 4194304) (p * (4 # 1)).
Proof.
  unfold spec.Qltb.
  destruct (Qle_bool (p * (8 # 1)) (15938355 # 2097152)) eqn:E1;
    destruct (Qle_bool (p * (4 # 1)) (15938355 # 4194304)) eqn:E2;
    reflect_Qle; try reflexivity; lra.
Qed.

Lemma scale_rise (p : Q) :
  spec.Qltb ((4 # 1) - (15938355 # 4194304)) (p * (4 # 1)) = true ->
  (((8 # 1) - (15938355 # 2097152)) / (p * (8 # 1)) ==
   ((4 # 1) - (15938355 # 4194304)) / (p * (4 # 1)))%Q.
Proof.
  unfold spec.Qltb. intros H. apply negb_true_iff in H. reflect_Qle.
  field. intros Hz. lra.
Qed.

Lemma scale_fall (p : Q) :
  spec.Qltb (15938355 # 4194304) (p * (4 # 1)) = true ->
  ((15938355 # 2097152) / (p * (8 # 1)) ==
   (15938355 # 4194304) / (p * (4 # 1)))%Q.
Proof.
  unfold spec.Qltb. intros H. apply negb_true_iff in H. reflect_Qle.
  field. intros Hz. lra.
Qed.

Lemma proportional_alpha_scale (fall_first : bool) (p_in p_out : Q) :
  (spec.proportional_alpha fall_first p_in p_out (8 # 1) (15938355 # 2097152) ==
   spec.proportional_alpha fall_first p_in p_out (4 # 1) (15938355 # 4194304))%Q.
Proof.
  unfold spec.proportional_alpha.
  rewrite scale_rising, scale_falling.
  pose proof (scale_rise p_in) as Hrise. pose proof (scale_fall p_out) as Hfall.
  destruct fall_first;
    destruct (spec.Qltb ((4 # 1) - (15938355 # 4194304)) (p_in * (4 # 1)));
    destruct (spec.Qltb (15938355 # 4194304) (p_out * (4 # 1)));
    auto; reflexivity.
Qed.

(** C8 fails on the code. Two toasts are 5 % through their lifetimes, one of
    4 s after a frame of 0.2 s, one of 8 s after a frame of 0.4 s. The code
    fades the first to 2/3 and shows the second at 1. No pair of fractions
    gives windows that fit both, even within one hundredth and whichever
    window is looked at first. *)
Lemma fade_windows_are_not_fractions :
  let tA := spec.toast_of (of_Z 4) (sub (of_Z 4) (literal 2 10)) in
  let tB := spec.toast_of (of_Z 8) (sub (of_Z 8) (literal 4 10)) in
  spec.tick (literal 2 10) (spec.toast_of (of_Z 4) (of_Z 4)) = Some tA /\
  spec.tick (literal 4 10) (spec.toast_of (of_Z 8) (of_Z 8)) = Some tB /\
  to_Q (lifetime tA) = Some (15938355 # 4194304) /\
  to_Q (lifetime tB) = Some (15938355 # 2097152) /\
  to_Q (fade_alpha tA) = Some (11184813 # 16777216) /\
  to_Q (fade_alpha tB) = Some (1 # 1) /\
  ~ exists (fall_first : bool) (p_in p_out : Q),
      spec.within_a_hundredth (fade_alpha tA)
        (spec.proportional_alpha fall_first p_in p_out (4 # 1) (15938355 # 4194304)) /\
      spec.within_a_hundredth (fade_alpha tB)
        (spec.proportional_alpha fall_first p_in p_out (8 # 1) (15938355 # 2097152)).
Proof.
  intros tA tB.
  assert (EA : to_Q (fade_alpha tA) = Some (11184813 # 16777216))
    by (vm_compute; reflexivity).
  assert (EB : to_Q (fade_alpha tB) = Some (1 # 1)) by (vm_compute; reflexivity).
  repeat (split; [vm_compute; reflexivity | ]).
  intros [fall_first [p_in [p_out [HA HB]]]].
  unfold spec.within_a_hundredth in HA, HB. rewrite EA in HA. rewrite EB in HB.
  pose proof (proportional_alpha_scale fall_first p_in p_out) as Hscale.
  destruct HA as [HA1 HA2], HB as [HB1 HB2].
  revert Hscale HA1 HA2 HB1 HB2.
  generalize (spec.proportional_alpha fall_first p_in p_out (8 # 1) (15938355 # 2097152)).
  generalize (spec.proportional_alpha fall_first p_in p_out (4 # 1) (15938355 # 4194304)).
  intros a b Hscale HA1 HA2 HB1 HB2. lra.
Qed.

End FadeWindows.

(** * Concrete runs *)

Section Runs.

Import Float32.
Import visualizer.

(** C9. A critical event opens the popup; [clear()] empties the queue and the
    modal slot and leaves the popup open, so the next frame still shows the
    popup, with no event in it. *)
Theorem clear_leaves_critical_popup_open (e : core.ExceptionEvent) (w : World)
  (dt : float) (fr : Frame) :
  core.severity e = core.Critical ->
  let w' := spec.cleared (on_exception e w) in
  toasts_ (overlay w') = [] /\
  modal_error_ (overlay w') = None /\
  critical_popup_open (imgui w') = true /\
  In (CriticalErrorPopup None) (snd (render dt fr w')).
Proof.
  intros Hsev w'. subst w'.
  unfold on_exception. rewrite Hsev.
  unfold render, render_toasts, render_modal, render_statistics_window.
  cbn.
  destruct (view_logs_pressed fr), (continue_pressed fr); cbn;
    destruct (show_statistics_ (overlay w)),
      (statistics_begin fr); cbn; repeat split; auto.
Qed.

Lemma clear_leaves_critical_popup_open_witness :
  core.severity (spec.critical "out of memory") = core.Critical /\
  let w' := spec.cleared (on_exception (spec.critical "out of memory") spec.fresh) in
  toasts_ (overlay w') = [] /\
  modal_error_ (overlay w') = None /\
  critical_popup_open (imgui w') = true /\
  In (CriticalErrorPopup None) (snd (render zero spec.quiet w')).
Proof.
  split; [reflexivity | ].
  apply (clear_leaves_critical_popup_open (spec.critical "out of memory")
           spec.fresh zero spec.quiet).
  reflexivity.
Defined.

(** The frame after a critical event and [clear()]: the popup, empty. *)
Example popup_after_clear :
  snd (render zero spec.quiet
         (spec.cleared (on_exception (spec.critical "out of memory") spec.fresh)))
  = [CriticalErrorPopup None].
Proof. reflexivity. Qed.

(** The buttons of the popup close it and empty the slot. *)
Example popup_after_continue :
  let pressed :=
    mk_Frame (viewport spec.quiet) (toast_window_height spec.quiet)
      false false true false false false in
  let w := fst (render zero pressed
                  (on_exception (spec.critical "out of memory") spec.fresh)) in
  modal_error_ (overlay w) = None /\
  critical_popup_open (imgui w) = false /\
  snd (render zero spec.quiet w) = [].
Proof. repeat split. Qed.

Lemma toast_queue_keeps_most_recent_witness :
  let w := {| overlay := set_max_toasts 2 initial_visualizer;
              imgui := imgui spec.fresh |} in
  let evs := [spec.warn "A"; spec.warn "B"; spec.warn "C"] in
  Forall (fun e => core.severity e <> core.Critical) evs /\
  (List.length (toasts_ (overlay w)) <= N.to_nat (max_toasts_ (overlay w)))%nat /\
  map message (toasts_ (overlay (spec.deliver evs w))) = ["B"; "C"].
Proof.
  intros w evs.
  assert (Hall : Forall (fun e => core.severity e <> core.Critical) evs).
  { repeat constructor; discriminate. }
  assert (Hbound : (List.length (toasts_ (overlay w))
                    <= N.to_nat (max_toasts_ (overlay w)))%nat).
  { cbn. lia. }
  split; [exact Hall | ]. split; [exact Hbound | ].
  destruct (toast_queue_keeps_most_recent evs w Hall Hbound) as [_ [_ [Hq _]]].
  rewrite Hq. reflexivity.
Defined.

Lemma critical_event_takes_modal_slot_witness :
  core.severity (spec.critical "second") = core.Critical /\
  modal_error_
    (overlay (on_exception (spec.critical "second")
                (on_exception (spec.critical "first") spec.fresh)))
  = Some (spec.critical "second").
Proof.
  split; [reflexivity | ].
  destruct (critical_event_takes_modal_slot (spec.critical "second") spec.fresh eq_refl)
    as [_ [_ Htwo]].
  apply (Htwo (spec.critical "first")).
Defined.

(** ** Expiry and rounding *)

(** C5 fails on the code. A toast of lifetime 4 sees three frames of 1e-7 s
    and one of 3.9999998 s: the delta times add up to more than 4, and the
    toast is still in the queue, with 2^-22 s left, because each of the first
    three subtractions rounds back to 4. *)
Lemma toast_outlives_elapsed_lifetime :
  let w := on_exception (spec.warn "A") spec.fresh in
  let dts := [spec.tiny; spec.tiny; spec.tiny; spec.below_four] in
  map (fun t => to_Q (lifetime t)) (toasts_ (overlay w)) = [Some (4 # 1)] /\
  (exists s : Q, spec.elapsed dts = Some s /\ (4 # 1 <= s)%Q) /\
  map (fun t => to_Q (lifetime t))
    (toasts_ (overlay (render_frames (map (fun dt => (dt, spec.quiet)) dts) w)))
  = [Some (1 # 4194304)].
Proof.
  intros w dts. split; [ | split].
  - vm_compute. reflexivity.
  - eexists. split; [vm_compute; reflexivity | ].
    unfold Qle. vm_compute. discriminate.
  - vm_compute. reflexivity.
Qed.

(** The same at sixty frames a second: after 240 frames of 1/60 s the delta
    times add up to more than 4 s and the toast of lifetime 4 is still in
    the queue; frame 241 removes it. *)
Example toast_outlives_at_sixty_hertz :
  let w := on_exception (spec.warn "A") spec.fresh in
  let frames n := repeat (literal 1 60, spec.quiet) n in
  (exists s : Q, spec.elapsed (repeat (literal 1 60) 240) = Some s /\ (4 # 1 <= s)%Q) /\
  List.length (toasts_ (overlay (render_frames (frames 240%nat) w))) = 1%nat /\
  List.length (toasts_ (overlay (render_frames (frames 241%nat) w))) = 0%nat.
Proof.
  intros w frames. split; [ | split].
  - eexists. split; [vm_compute; reflexivity | ].
    unfold Qle. vm_compute. discriminate.
  - vm_compute. reflexivity.
  - vm_compute. reflexivity.
Qed.

(** The scenario of section 8: one frame of 3.9 s leaves the toast with a
    fade of 0.2; a frame of 0.2 s more removes it. *)
Example scenario_expiry :
  let w := on_exception (spec.warn "A") spec.fresh in
  let w1 := fst (render (literal 39 10) spec.quiet w) in
  get_warning_count (overlay w) = 1%N /\
  map (fun t => to_Q (fade_alpha t)) (toasts_ (overlay w1)) = [Some (209715 # 1048576)] /\
  toasts_ (overlay (fst (render (literal 2 10) spec.quiet w1))) = [].
Proof. vm_compute. repeat split. Qed.

End Runs.

(** * More on the reporter *)

Section ReporterComposition.

Context {W : Type}.

(** An adapter wrapped again behaves as the adapter: the inner one absorbs
    the failure and reports it with its own location, the outer one has
    nothing to catch, so a failure is published once, not twice. *)
Theorem wrap_of_wrap {A R : Type} `{core.Instantiated R}
  (f : A -> core.Call W R) (inner outer : core.source_location) (args : A)
  (p : core.Process W) :
  core.wrap (core.wrap f inner) outer args p = core.wrap f inner args p.
Proof.
  rewrite (wrap_run (core.wrap f inner) outer args p).
  rewrite (wrap_run f inner args p).
  destruct (f args p) as [[v | t] p1]; reflexivity.
Qed.

(** The event for an object of a user class that has its base publicly is
    the event for an object of the base class with the same text: the name
    of the class of the thrown object is in no event. An object of a class
    that hides its base is accepted by no typed handler, whatever the base:
    it is reported as anything that is not a std::exception is, and its
    text is lost. *)
Theorem wrap_ignores_derived_class {A R : Type} `{core.Instantiated R}
  (f g h : A -> core.Call W R) (loc : core.source_location) (args : A)
  (p p1 : core.Process W) (name : string) (base : core.exn_type) (what : string) :
  f args p = (core.Threw (core.Object (core.Derived name core.public_base base) what), p1) ->
  g args p = (core.Threw (core.Object base what), p1) ->
  h args p = (core.Threw (core.Object (core.Derived name core.hidden_base base) what), p1) ->
  core.wrap f loc args p = core.wrap g loc args p /\
  core.wrap h loc args p =
  (core.Returned core.nothing,
   spec.published
     {| core.message := "Unknown exception";
        core.severity := core.Critical;
        core.location := loc;
        core.timestamp := core.steady_clock p1;
        core.type_name := "unknown" |} p1).
Proof.
  intros Hf Hg Hh. rewrite !wrap_run, Hf, Hg, Hh. split; reflexivity.
Qed.

(** Every catch block of [wrap] can be reached: for each of the five pairs
    of severity and category some thrown object is reported under it, so no
    block is hidden by one written before it. *)
Theorem wrap_handlers_all_reachable :
  Forall
    (fun rule : core.Severity * string =>
       exists t : core.Thrown,
         forall (loc : core.source_location) (p : core.Process W),
           core.wrap (spec.throwing t) loc tt p =
           (core.Returned tt,
            spec.published
              {| core.message := spec.description t;
                 core.severity := fst rule;
                 core.location := loc;
                 core.timestamp := core.steady_clock p;
                 core.type_name := snd rule |} p))
    [ (core.Error, "filesystem_error"); (core.Error, "system_error");
      (core.Error, "runtime_error"); (core.Error, "exception");
      (core.Critical, "unknown") ].
Proof.
  repeat apply Forall_cons; [ | | | | | apply Forall_nil].
  - exists (core.Object (core.Std core.filesystem_error) "").
    intros loc p. rewrite wrap_run. reflexivity.
  - exists (core.Object (core.Std core.system_error) "").
    intros loc p. rewrite wrap_run. reflexivity.
  - exists (core.Object (core.Std core.runtime_error) "").
    intros loc p. rewrite wrap_run. reflexivity.
  - exists (core.Object (core.Std core.exception) "").
    intros loc p. rewrite wrap_run. reflexivity.
  - exists core.Opaque.
    intros loc p. rewrite wrap_run. reflexivity.
Qed.

End ReporterComposition.

Lemma wrap_ignores_derived_class_witness :
  let mine :=
    core.Object (core.Derived "LoadError" core.public_base (core.Std core.runtime_error))
      "bad header" in
  let base := core.Object (core.Std core.runtime_error) "bad header" in
  let hidden :=
    core.Object (core.Derived "LoadError" core.hidden_base (core.Std core.runtime_error))
      "bad header" in
  spec.throwing mine tt spec.two_journals = (core.Threw mine, spec.two_journals) /\
  spec.throwing base tt spec.two_journals = (core.Threw base, spec.two_journals) /\
  spec.throwing hidden tt spec.two_journals = (core.Threw hidden, spec.two_journals) /\
  core.wrap (spec.throwing mine) spec.here tt spec.two_journals =
  core.wrap (spec.throwing base) spec.here tt spec.two_journals /\
  core.wrap (spec.throwing hidden) spec.here tt spec.two_journals =
  (core.Returned tt,
   core.with_world [("O1", "Unknown exception"); ("O2", "Unknown exception")]
     spec.two_journals).
Proof.
  intros mine base hidden. do 3 (split; [reflexivity | ]).
  exact (wrap_ignores_derived_class
           (spec.throwing mine) (spec.throwing base) (spec.throwing hidden)
           spec.here tt spec.two_journals spec.two_journals
           "LoadError" (core.Std core.runtime_error) "bad header"
           eq_refl eq_refl eq_refl).
Defined.

(** * More on the overlay *)

Section OverlayInUse.

Import Float32.
Import visualizer.

(** ** What each operation leaves alone *)

Lemma update_statistics_fields (sev : core.Severity) (v : ExceptionVisualizer) :
  enabled_ (update_statistics sev v) = enabled_ v /\
  position_corner_ (update_statistics sev v) = position_corner_ v /\
  show_statistics_ (update_statistics sev v) = show_statistics_ v.
Proof. destruct sev; repeat split. Qed.

Lemma update_statistics_counters (sev : core.Severity) (v : ExceptionVisualizer) :
  session.counters (update_statistics sev v) =
  ( (if session.counts_as_error sev
     then size_t_incr (error_count_ v) else error_count_ v),
    (if session.counts_as_warning sev
     then size_t_incr (warning_count_ v) else warning_count_ v),
    (if session.counts_as_info sev
     then size_t_incr (info_count_ v) else info_count_ v) ).
Proof. destruct sev; reflexivity. Qed.

Lemma on_exception_counters (e : core.ExceptionEvent) (w : World) :
  session.counters (overlay (on_exception e w)) =
  session.counters (update_statistics (core.severity e) (overlay w)).
Proof.
  unfold on_exception.
  destruct (core.LogLevel_eqb (core.severity e) core.Critical); reflexivity.
Qed.

Lemma on_exception_configuration (e : core.ExceptionEvent) (w : World) :
  max_toasts_ (overlay (on_exception e w)) = max_toasts_ (overlay w) /\
  toast_lifetime_ (overlay (on_exception e w)) = toast_lifetime_ (overlay w) /\
  enabled_ (overlay (on_exception e w)) = enabled_ (overlay w) /\
  position_corner_ (overlay (on_exception e w)) = position_corner_ (overlay w) /\
  show_statistics_ (overlay (on_exception e w)) = show_statistics_ (overlay w).
Proof.
  unfold on_exception.
  destruct (update_statistics_toasts (core.severity e) (overlay w)) as [_ [Hm [Hl _]]].
  destruct (update_statistics_fields (core.severity e) (overlay w)) as [He [Hp Hs]].
  destruct (core.LogLevel_eqb (core.severity e) core.Critical); cbn; auto.
Qed.

(** What a frame leaves alone: the counters and the configuration. *)
Lemma render_keeps (dt : float) (fr : Frame) (w : World) :
  session.counters (overlay (fst (render dt fr w))) = session.counters (overlay w) /\
  max_toasts_ (overlay (fst (render dt fr w))) = max_toasts_ (overlay w) /\
  toast_lifetime_ (overlay (fst (render dt fr w))) = toast_lifetime_ (overlay w) /\
  enabled_ (overlay (fst (render dt fr w))) = enabled_ (overlay w) /\
  position_corner_ (overlay (fst (render dt fr w))) = position_corner_ (overlay w).
Proof.
  unfold render, render_toasts, render_modal, render_statistics_window.
  destruct (toasts_ (overlay w)) as [ | t rest].
  - cbn.
    destruct (critical_popup_open (imgui w)), (view_logs_pressed fr),
      (continue_pressed fr); cbn;
      destruct (show_statistics_ (overlay w)), (statistics_begin fr),
        (clear_all_pressed fr); cbn; repeat split.
  - destruct (toast_origin (position_corner_ (overlay w)) (viewport fr))
      as [[x_pos y_pos] down].
    destruct (render_toasts_loop fr dt x_pos down y_pos (t :: rest)) as [q' draws].
    cbn.
    destruct (critical_popup_open (imgui w)), (view_logs_pressed fr),
      (continue_pressed fr); cbn;
      destruct (show_statistics_ (overlay w)), (statistics_begin fr),
        (clear_all_pressed fr); cbn; repeat split.
Qed.

(** The slot and the popup over a frame: the slot is emptied, or both are
    as they were. *)
Lemma render_modal_slot (dt : float) (fr : Frame) (w : World) :
  modal_error_ (overlay (fst (render dt fr w))) = None \/
  (modal_error_ (overlay (fst (render dt fr w))) = modal_error_ (overlay w) /\
   critical_popup_open (imgui (fst (render dt fr w))) = critical_popup_open (imgui w)).
Proof.
  unfold render, render_toasts, render_modal, render_statistics_window.
  destruct (toasts_ (overlay w)) as [ | t rest].
  - cbn.
    destruct (critical_popup_open (imgui w)) eqn:Hopen, (view_logs_pressed fr),
      (continue_pressed fr); cbn;
      destruct (show_statistics_ (overlay w)), (statistics_begin fr),
        (clear_all_pressed fr); cbn; auto;
      destruct (copy_details_pressed fr), (modal_error_ (overlay w)); cbn; auto.
  - destruct (toast_origin (position_corner_ (overlay w)) (viewport fr))
      as [[x_pos y_pos] down].
    destruct (render_toasts_loop fr dt x_pos down y_pos (t :: rest)) as [q' draws].
    cbn.
    destruct (critical_popup_open (imgui w)) eqn:Hopen, (view_logs_pressed fr),
      (continue_pressed fr); cbn;
      destruct (show_statistics_ (overlay w)), (statistics_begin fr),
        (clear_all_pressed fr); cbn; auto;
      destruct (copy_details_pressed fr), (modal_error_ (overlay w)); cbn; auto.
Qed.

(** ** Counters *)

Lemma size_t_incr_mod (k : N) :
  size_t_incr (k mod 2 ^ 64)%N = ((k + 1) mod 2 ^ 64)%N.
Proof.
  unfold size_t_incr. apply N.Div0.add_mod_idemp_l.
Qed.

Lemma tally_cons (which : core.Severity -> bool) (e : core.ExceptionEvent)
  (evs : list core.ExceptionEvent) :
  session.tally which (e :: evs) =
  ((if which (core.severity e) then 1 else 0) + session.tally which evs)%N.
Proof.
  unfold session.tally. cbn [filter].
  destruct (which (core.severity e)); cbn [List.length]; lia.
Qed.

Lemma on_exception_counters_mod (e : core.ExceptionEvent) (w : World) (ke kw ki : N) :
  session.counters (overlay w) =
    ( ((ke mod 2 ^ 64)%N, (kw mod 2 ^ 64)%N), (ki mod 2 ^ 64)%N ) ->
  session.counters (overlay (on_exception e w)) =
    ( (((ke + if session.counts_as_error (core.severity e) then 1 else 0) mod 2 ^ 64)%N,
       ((kw + if session.counts_as_warning (core.severity e) then 1 else 0) mod 2 ^ 64)%N),
      ((ki + if session.counts_as_info (core.severity e) then 1 else 0) mod 2 ^ 64)%N ).
Proof.
  intros Hw. rewrite on_exception_counters, update_statistics_counters.
  unfold session.counters in Hw. injection Hw as -> -> ->.
  destruct (core.severity e); cbn [session.counts_as_error
    session.counts_as_warning session.counts_as_info];
    rewrite ?size_t_incr_mod, ?N.add_0_r; reflexivity.
Qed.

Lemma deliver_counters (evs : list core.ExceptionEvent) :
  forall (w : World) (ke kw ki : N),
  session.counters (overlay w) =
    ( ((ke mod 2 ^ 64)%N, (kw mod 2 ^ 64)%N), (ki mod 2 ^ 64)%N ) ->
  session.counters (overlay (spec.deliver evs w)) =
    ( (((ke + session.tally session.counts_as_error evs) mod 2 ^ 64)%N,
       ((kw + session.tally session.counts_as_warning evs) mod 2 ^ 64)%N),
      ((ki + session.tally session.counts_as_info evs) mod 2 ^ 64)%N ).
Proof.
  induction evs as [ | e evs IH]; intros w ke kw ki Hw.
  - cbn [spec.deliver fold_left]. unfold session.tally. cbn [filter List.length N.of_nat].
    rewrite !N.add_0_r. exact Hw.
  - change (spec.deliver (e :: evs) w) with (spec.deliver evs (on_exception e w)).
    rewrite (IH _ _ _ _ (on_exception_counters_mod e w ke kw ki Hw)).
    rewrite !tally_cons, !N.add_assoc. reflexivity.
Qed.

(** The counters tell how many events of each class were received, modulo
    2^64: errors for Error and Critical, warnings for Warn, infos for the
    rest. *)
Theorem counters_tally_events (evs : list core.ExceptionEvent) (w : World) :
  (error_count_ (overlay w) < 2 ^ 64)%N ->
  (warning_count_ (overlay w) < 2 ^ 64)%N ->
  (info_count_ (overlay w) < 2 ^ 64)%N ->
  let v' := overlay (spec.deliver evs w) in
  get_error_count v' =
    ((error_count_ (overlay w) + session.tally session.counts_as_error evs) mod 2 ^ 64)%N /\
  get_warning_count v' =
    ((warning_count_ (overlay w) + session.tally session.counts_as_warning evs) mod 2 ^ 64)%N /\
  info_count_ v' =
    ((info_count_ (overlay w) + session.tally session.counts_as_info evs) mod 2 ^ 64)%N /\
  (session.tally session.counts_as_error evs
   + session.tally session.counts_as_warning evs
   + session.tally session.counts_as_info evs = N.of_nat (List.length evs))%N.
Proof.
  intros He Hw Hi v'.
  assert (Hstart : session.counters (overlay w) =
                   ( ((error_count_ (overlay w) mod 2 ^ 64)%N,
                      (warning_count_ (overlay w) mod 2 ^ 64)%N),
                     (info_count_ (overlay w) mod 2 ^ 64)%N )).
  { unfold session.counters. rewrite !N.mod_small by assumption. reflexivity. }
  pose proof (deliver_counters evs w _ _ _ Hstart) as Hend.
  unfold session.counters in Hend. injection Hend as H1 H2 H3.
  unfold get_error_count, get_warning_count, v'.
  split; [exact H1 | ]. split; [exact H2 | ]. split; [exact H3 | ].
  clear. induction evs as [ | e evs IH]; [reflexivity | ].
  rewrite !tally_cons. cbn [List.length].
  destruct (core.severity e); cbn [session.counts_as_error
    session.counts_as_warning session.counts_as_info]; lia.
Qed.

(** ** Runs of operations *)

Lemma run_cons (op : session.Op) (ops : list session.Op) (w : World) :
  session.run (op :: ops) w =
  (fst (session.run ops (fst (session.step op w))),
   snd (session.step op w) ++ snd (session.run ops (fst (session.step op w)))).
Proof.
  cbn [session.run].
  destruct (session.step op w) as [w1 d1]. cbn [fst snd].
  destruct (session.run ops w1) as [w2 d2]. reflexivity.
Qed.

(** A property of worlds that every operation keeps holds after a run. *)
Lemma run_invariant (P : World -> Prop) :
  (forall op w, P w -> P (fst (session.step op w))) ->
  forall ops w, P w -> P (fst (session.run ops w)).
Proof.
  intros Hstep ops. induction ops as [ | op ops IH]; intros w Hw; [exact Hw | ].
  rewrite run_cons. cbn [fst]. apply IH, Hstep, Hw.
Qed.

Lemma observer_cases (e : core.ExceptionEvent) (w : World) :
  observer e w = w \/ observer e w = on_exception e w.
Proof. unfold observer. destruct (enabled_ (overlay w)); auto. Qed.

(** *** Counters *)

(** The counters move with events only: frames, [clear()], Clear All and
    the setters leave them as they are. *)
Theorem counters_move_with_events_only (ops : list session.Op) (w : World) :
  forallb (fun op => negb (session.is_event op)) ops = true ->
  session.counters (overlay (fst (session.run ops w))) = session.counters (overlay w).
Proof.
  revert w. induction ops as [ | op ops IH]; intros w Hops; [reflexivity | ].
  cbn [forallb] in Hops. apply andb_true_iff in Hops. destruct Hops as [Hop Hops].
  rewrite run_cons. cbn [fst]. rewrite (IH _ Hops).
  destruct op; cbn [session.is_event negb] in Hop; try discriminate;
    cbn [session.step fst]; try reflexivity.
  apply render_keeps.
Qed.

(** *** The modal *)

Lemma on_exception_modal_consistent (e : core.ExceptionEvent) (w : World) :
  session.modal_consistent w -> session.modal_consistent (on_exception e w).
Proof.
  intros Hw pending. unfold on_exception.
  destruct (core.LogLevel_eqb (core.severity e) core.Critical) eqn:Hsev.
  - cbn. intros [= <-]. apply LogLevel_eqb_Critical in Hsev. split; [exact Hsev | reflexivity].
  - cbn. destruct (update_statistics_toasts (core.severity e) (overlay w))
      as [_ [_ [_ Hmodal]]].
    rewrite Hmodal. apply Hw.
Qed.

Lemma step_modal_consistent (op : session.Op) (w : World) :
  session.modal_consistent w -> session.modal_consistent (fst (session.step op w)).
Proof.
  intros Hw. destruct op; cbn [session.step fst]; try exact Hw.
  - destruct (observer_cases ev w) as [-> | ->];
      [exact Hw | apply on_exception_modal_consistent, Hw].
  - intros pending Hpending.
    destruct (render_modal_slot dt fr w) as [Hnone | [Hsame Hopen]].
    + rewrite Hnone in Hpending. discriminate.
    + rewrite Hsame in Hpending. rewrite Hopen. apply Hw, Hpending.
  - intros pending Hpending. cbn in Hpending. discriminate.
Qed.

Lemma render_shows_pending (dt : float) (fr : Frame) (w : World)
  (e : core.ExceptionEvent) :
  critical_popup_open (imgui w) = true ->
  modal_error_ (overlay w) = Some e ->
  In (CriticalErrorPopup (Some e)) (snd (render dt fr w)).
Proof.
  intros Hopen Hpending.
  unfold render, render_toasts, render_modal, render_statistics_window.
  destruct (toasts_ (overlay w)) as [ | t rest].
  - cbn. rewrite Hopen, Hpending.
    destruct (view_logs_pressed fr), (continue_pressed fr); cbn;
      destruct (show_statistics_ (overlay w)), (statistics_begin fr); cbn; auto.
  - destruct (toast_origin (position_corner_ (overlay w)) (viewport fr))
      as [[x_pos y_pos] down].
    destruct (render_toasts_loop fr dt x_pos down y_pos (t :: rest)) as [q' draws].
    cbn. rewrite Hopen, Hpending.
    destruct (view_logs_pressed fr), (continue_pressed fr); cbn;
      destruct (show_statistics_ (overlay w)), (statistics_begin fr); cbn;
      rewrite ?in_app_iff; cbn; auto.
Qed.

(** Whatever happens to an overlay, an event in its modal slot is a
    critical one whose popup is open, and the next frame shows it. *)
Theorem pending_critical_event_is_shown (ops : list session.Op) (w : World)
  (e : core.ExceptionEvent) (dt : float) (fr : Frame) :
  session.modal_consistent w ->
  modal_error_ (overlay (fst (session.run ops w))) = Some e ->
  core.severity e = core.Critical /\
  In (CriticalErrorPopup (Some e)) (snd (render dt fr (fst (session.run ops w)))).
Proof.
  intros Hw Hpending.
  pose proof (run_invariant session.modal_consistent step_modal_consistent ops w Hw)
    as Hrun.
  destruct (Hrun e Hpending) as [Hsev Hopen].
  split; [exact Hsev | ].
  apply render_shows_pending; assumption.
Qed.

(** Without a press on View Logs, Continue or Clear All, a frame leaves the
    slot and the popup as they are, whatever its delta time: a pending
    critical event does not expire. Copy Details does not close it. *)
Theorem modal_waits_for_dismissal (dt : float) (fr : Frame) (w : World) :
  view_logs_pressed fr = false ->
  continue_pressed fr = false ->
  clear_all_pressed fr = false ->
  modal_error_ (overlay (fst (render dt fr w))) = modal_error_ (overlay w) /\
  critical_popup_open (imgui (fst (render dt fr w))) = critical_popup_open (imgui w).
Proof.
  intros Hlogs Hcontinue Hclear.
  unfold render, render_toasts, render_modal, render_statistics_window.
  rewrite Hlogs, Hcontinue, Hclear.
  destruct (toasts_ (overlay w)) as [ | t rest].
  - cbn.
    destruct (critical_popup_open (imgui w)) eqn:Hopen; cbn;
      destruct (show_statistics_ (overlay w)), (statistics_begin fr); cbn;
      destruct (copy_details_pressed fr), (modal_error_ (overlay w)); cbn; auto.
  - destruct (toast_origin (position_corner_ (overlay w)) (viewport fr))
      as [[x_pos y_pos] down].
    destruct (render_toasts_loop fr dt x_pos down y_pos (t :: rest)) as [q' draws].
    cbn.
    destruct (critical_popup_open (imgui w)) eqn:Hopen; cbn;
      destruct (show_statistics_ (overlay w)), (statistics_begin fr); cbn;
      destruct (copy_details_pressed fr), (modal_error_ (overlay w)); cbn; auto.
Qed.

(** *** Where the windows of the toasts go *)

Lemma render_toasts_loop_layout (fr : Frame) (dt x_pos : float) (down : bool)
  (q : list Toast) :
  forall y : float,
  snd (render_toasts_loop fr dt x_pos down y q) =
  session.layout fr x_pos down y (spec.omap (spec.tick dt) q).
Proof.
  induction q as [ | t rest IH]; intros y; [reflexivity | ].
  cbn [render_toasts_loop spec.omap]. unfold spec.tick.
  destruct (leb (lifetime (set_lifetime (sub (lifetime t) dt) t)) zero).
  - apply IH.
  - cbn [session.layout].
    match goal with
    | |- context [render_toasts_loop fr dt x_pos down ?y' rest] =>
        specialize (IH y');
        destruct (render_toasts_loop fr dt x_pos down y' rest) as [q' draws]
    end.
    cbn [snd] in *. rewrite IH. reflexivity.
Qed.

Lemma render_toasts_layout (dt : float) (fr : Frame) (w : World) :
  snd (render_toasts dt fr w) =
  let '(x_pos, y_pos, down) :=
    toast_origin (position_corner_ (overlay w)) (viewport fr) in
  session.layout fr x_pos down y_pos (spec.omap (spec.tick dt) (toasts_ (overlay w))).
Proof.
  unfold render_toasts.
  destruct (toasts_ (overlay w)) as [ | t rest] eqn:Hq.
  - destruct (toast_origin (position_corner_ (overlay w)) (viewport fr))
      as [[x_pos y_pos] down]. reflexivity.
  - destruct (toast_origin (position_corner_ (overlay w)) (viewport fr))
      as [[x_pos y_pos] down].
    pose proof (render_toasts_loop_layout fr dt x_pos down (t :: rest) y_pos) as Hloop.
    destruct (render_toasts_loop fr dt x_pos down y_pos (t :: rest)) as [q' draws].
    exact Hloop.
Qed.

Lemma layout_windows (fr : Frame) (x_pos : float) (down : bool) (staying : list Toast) :
  forall (y : float) (d : Draw),
  In d (session.layout fr x_pos down y staying) ->
  exists (y' a : float) (t : Toast), d = ToastWindow x_pos y' a t /\ In t staying.
Proof.
  induction staying as [ | t rest IH]; intros y d Hin; [destruct Hin | ].
  cbn [session.layout] in Hin. destruct Hin as [<- | Hin].
  - eexists _, _, t. split; [reflexivity | left; reflexivity].
  - destruct (IH _ _ Hin) as [y' [a [t' [Hd Ht']]]].
    exists y', a, t'. split; [exact Hd | right; exact Ht'].
Qed.

Lemma render_toasts_only_toast_windows (dt : float) (fr : Frame) (w : World) (d : Draw) :
  In d (snd (render_toasts dt fr w)) ->
  exists (x y a : float) (t : Toast), d = ToastWindow x y a t.
Proof.
  rewrite render_toasts_layout.
  destruct (toast_origin (position_corner_ (overlay w)) (viewport fr))
    as [[x_pos y_pos] down].
  intros Hin. destruct (layout_windows _ _ _ _ _ _ Hin) as [y' [a [t [Hd _]]]].
  exists x_pos, y', a, t. exact Hd.
Qed.

(** With the popup open, a press on View Logs or on Continue empties the
    slot and closes the popup, and the frame after shows no popup. *)
Theorem dismissal_closes_the_modal (dt dt' : float) (fr fr' : Frame) (w : World) :
  critical_popup_open (imgui w) = true ->
  view_logs_pressed fr || continue_pressed fr = true ->
  let w' := fst (render dt fr w) in
  modal_error_ (overlay w') = None /\
  critical_popup_open (imgui w') = false /\
  forall details, ~ In (CriticalErrorPopup details) (snd (render dt' fr' w')).
Proof.
  intros Hopen Hpressed w'.
  assert (Hstate : modal_error_ (overlay w') = None /\
                   critical_popup_open (imgui w') = false).
  { unfold w', render, render_toasts, render_modal, render_statistics_window.
    destruct (toasts_ (overlay w)) as [ | t rest].
    - cbn. rewrite Hopen.
      destruct (view_logs_pressed fr), (continue_pressed fr); try discriminate; cbn;
        destruct (show_statistics_ (overlay w)), (statistics_begin fr),
          (clear_all_pressed fr); cbn; auto.
    - destruct (toast_origin (position_corner_ (overlay w)) (viewport fr))
        as [[x_pos y_pos] down].
      destruct (render_toasts_loop fr dt x_pos down y_pos (t :: rest)) as [q' draws].
      cbn. rewrite Hopen.
      destruct (view_logs_pressed fr), (continue_pressed fr); try discriminate; cbn;
        destruct (show_statistics_ (overlay w)), (statistics_begin fr),
          (clear_all_pressed fr); cbn; auto. }
  destruct Hstate as [Hslot Hclosed].
  split; [exact Hslot | ]. split; [exact Hclosed | ].
  intros details.
  pose proof (render_toasts_queue dt' fr' w') as [_ [_ [_ Himgui]]].
  pose proof (render_toasts_only_toast_windows dt' fr' w' (CriticalErrorPopup details))
    as Htoasts.
  unfold render, render_modal, render_statistics_window.
  destruct (render_toasts dt' fr' w') as [w1 d1]. cbn [fst snd] in *.
  rewrite Himgui, Hclosed.
  assert (Hd1 : ~ In (CriticalErrorPopup details) d1).
  { intros Hin. destruct (Htoasts Hin) as [x [y [a [t Heq]]]]. discriminate. }
  destruct (show_statistics_ (overlay w1)).
  - destruct (statistics_begin fr'); cbn [snd];
      rewrite !in_app_iff; cbn; intuition discriminate.
  - cbn [snd]. rewrite in_app_iff. cbn. intuition.
Qed.

(** In a frame the windows of the toasts come first, at the positions the
    toasts that stay give them: a toast that expires in the frame leaves no
    gap, all windows have the x of the corner, and nothing else in the frame
    is the window of a toast. *)
Theorem toast_windows_are_laid_out_by_survivors (dt : float) (fr : Frame) (w : World) :
  exists others : list Draw,
    snd (render dt fr w) =
      (let '(x_pos, y_pos, down) :=
         toast_origin (position_corner_ (overlay w)) (viewport fr) in
       session.layout fr x_pos down y_pos
         (spec.omap (spec.tick dt) (toasts_ (overlay w)))) ++ others /\
    forallb (fun d => negb (session.is_toast_window d)) others = true.
Proof.
  unfold render.
  pose proof (render_toasts_layout dt fr w) as Hlayout.
  destruct (render_toasts dt fr w) as [w1 d1]. cbn [snd] in Hlayout.
  rewrite <- Hlayout. clear Hlayout.
  unfold render_modal, render_statistics_window.
  destruct (critical_popup_open (imgui w1)), (view_logs_pressed fr),
    (continue_pressed fr); cbn;
    destruct (show_statistics_ (overlay w1)); cbn;
    try destruct (statistics_begin fr); cbn;
    eexists; (split; [reflexivity | reflexivity]).
Qed.

(** A corner that is none of 0, 1, 2, 3 is the top right one. *)
Theorem unknown_corner_is_top_right (corner : Z) (dt : float) (fr : Frame) (w : World) :
  corner < 0 \/ 3 < corner ->
  snd (render dt fr (session.on_overlay (set_position_corner corner) w)) =
  snd (render dt fr (session.on_overlay (set_position_corner 0) w)).
Proof.
  intros Hcorner.
  assert (Horigin : toast_origin corner (viewport fr) = toast_origin 0 (viewport fr)).
  { unfold toast_origin.
    destruct corner as [ | [ [ | | ] | [ | | ] | ] | ]; try reflexivity; lia. }
  unfold render, render_toasts, render_modal, render_statistics_window.
  cbn [session.on_overlay overlay imgui set_position_corner toasts_ position_corner_].
  rewrite Horigin.
  destruct (toasts_ (overlay w)) as [ | t rest].
  - cbn -[format_details].
    destruct (critical_popup_open (imgui w)), (view_logs_pressed fr),
      (continue_pressed fr); cbn -[format_details];
      destruct (show_statistics_ (overlay w)), (statistics_begin fr),
        (clear_all_pressed fr); reflexivity.
  - destruct (toast_origin 0 (viewport fr)) as [[x_pos y_pos] down].
    destruct (render_toasts_loop fr dt x_pos down y_pos (t :: rest)) as [q' draws].
    cbn -[format_details].
    destruct (critical_popup_open (imgui w)), (view_logs_pressed fr),
      (continue_pressed fr); cbn -[format_details];
      destruct (show_statistics_ (overlay w)), (statistics_begin fr),
        (clear_all_pressed fr); reflexivity.
Qed.

(** *** Frames that stand still, frames that are not a number *)

Lemma sub_zero (x : float) : sub x zero = x.
Proof. destruct x as [[ | ] | [ | ] | | s m e]; reflexivity. Qed.

Lemma sub_nan (x : float) : sub x session.nan = session.nan.
Proof. destruct x; reflexivity. Qed.

Lemma nan_sub (x : float) : sub session.nan x = session.nan.
Proof. destruct x; reflexivity. Qed.

Lemma tick_zero (t : Toast) :
  spec.tick zero t = if leb (lifetime t) zero then None else Some t.
Proof.
  unfold spec.tick. cbn [lifetime set_lifetime]. rewrite sub_zero, set_lifetime_same.
  reflexivity.
Qed.

Lemma omap_tick_zero (q : list Toast) :
  spec.omap (spec.tick zero) q = filter (fun t => negb (leb (lifetime t) zero)) q.
Proof.
  induction q as [ | t rest IH]; [reflexivity | ].
  cbn [spec.omap filter]. rewrite tick_zero, IH.
  destruct (leb (lifetime t) zero); reflexivity.
Qed.

Lemma filter_twice {A : Type} (f : A -> bool) (l : list A) :
  filter f (filter f l) = filter f l.
Proof.
  induction l as [ | a rest IH]; [reflexivity | ].
  cbn [filter]. destruct (f a) eqn:Ha; [ | exact IH].
  cbn [filter]. rewrite Ha, IH. reflexivity.
Qed.

(** With the statistics window closed, the queue after a frame is the
    toasts that outlive the frame. *)
Lemma render_queue_plain (dt : float) (fr : Frame) (w : World) :
  show_statistics_ (overlay w) = false ->
  toasts_ (overlay (fst (render dt fr w))) =
    spec.omap (spec.tick dt) (toasts_ (overlay w)) /\
  show_statistics_ (overlay (fst (render dt fr w))) = false.
Proof.
  intros Hclosed. unfold render.
  destruct (render_toasts_queue dt fr w) as [Hq [_ [Hs _]]].
  destruct (render_toasts dt fr w) as [w1 d1]. cbn [fst] in *.
  destruct (render_modal_queue fr w1) as [Hm Hs'].
  destruct (render_modal fr w1) as [w2 d2]. cbn [fst] in *.
  assert (Hw2 : show_statistics_ (overlay w2) = false) by congruence.
  rewrite Hw2. cbn [fst]. split; congruence.
Qed.

Lemma render_frames_queue_plain (frames : list (float * Frame)) :
  forall w : World,
  show_statistics_ (overlay w) = false ->
  toasts_ (overlay (render_frames frames w)) =
    spec.omap (spec.age (map fst frames)) (toasts_ (overlay w)).
Proof.
  induction frames as [ | [dt fr] rest IH]; intros w Hclosed.
  - cbn. induction (toasts_ (overlay w)) as [ | t q IHq]; [reflexivity | ].
    cbn. f_equal. exact IHq.
  - cbn [render_frames map fst].
    destruct (render_queue_plain dt fr w Hclosed) as [Hq Hs].
    rewrite (IH _ Hs), Hq. apply omap_age_cons.
Qed.

(** A frame with a delta time of zero changes no remaining lifetime: it
    removes the toasts whose lifetime is already zero or less and keeps the
    others as they are, so a second such frame changes nothing more. *)
Theorem frame_of_zero_seconds (fr fr' : Frame) (w : World) :
  show_statistics_ (overlay w) = false ->
  let alive := filter (fun t => negb (leb (lifetime t) zero)) (toasts_ (overlay w)) in
  toasts_ (overlay (fst (render zero fr w))) = alive /\
  toasts_ (overlay (fst (render zero fr' (fst (render zero fr w))))) = alive.
Proof.
  intros Hclosed alive.
  destruct (render_queue_plain zero fr w Hclosed) as [Hq Hs].
  destruct (render_queue_plain zero fr' _ Hs) as [Hq' _].
  rewrite Hq', Hq, !omap_tick_zero. split; [reflexivity | apply filter_twice].
Qed.

Lemma age_from_nan (dts : list float) (t : Toast) :
  lifetime t = session.nan -> spec.age dts t = Some t.
Proof.
  revert t. induction dts as [ | dt dts IH]; intros t Ht; [reflexivity | ].
  cbn [spec.age]. unfold spec.tick. rewrite Ht, nan_sub. cbn [lifetime set_lifetime].
  change (leb session.nan zero) with false. cbv iota.
  rewrite <- Ht at 1. rewrite set_lifetime_same. apply IH, Ht.
Qed.

Lemma age_nan_first (dts : list float) (t : Toast) :
  spec.age (session.nan :: dts) t = Some (set_lifetime session.nan t).
Proof.
  cbn [spec.age]. unfold spec.tick. rewrite sub_nan.
  cbn [lifetime set_lifetime]. change (leb session.nan zero) with false. cbv iota.
  apply age_from_nan. reflexivity.
Qed.

Lemma omap_total {A B : Type} (f : A -> option B) (g : A -> B) (l : list A) :
  (forall a, f a = Some (g a)) -> spec.omap f l = map g l.
Proof.
  intros Hf. induction l as [ | a rest IH]; [reflexivity | ].
  cbn [spec.omap map]. rewrite Hf, IH. reflexivity.
Qed.

Lemma omap_age_nan (dts : list float) (q : list Toast) :
  spec.omap (spec.age (session.nan :: dts)) q = map (set_lifetime session.nan) q.
Proof. apply omap_total. intros t. apply age_nan_first. Qed.

(** One frame whose delta time is NaN makes every toast in the queue
    permanent: its remaining lifetime is NaN, and no later frame, whatever
    its delta time, removes it. *)
Theorem nan_frame_makes_toasts_permanent (fr : Frame) (later : list (float * Frame))
  (w : World) :
  show_statistics_ (overlay w) = false ->
  toasts_ (overlay (render_frames ((session.nan, fr) :: later) w)) =
  map (set_lifetime session.nan) (toasts_ (overlay w)).
Proof.
  intros Hclosed.
  rewrite (render_frames_queue_plain _ w Hclosed).
  cbn [map fst]. apply omap_age_nan.
Qed.

(** *** What is in the queue *)

Lemma tick_content (dt : float) (t t' : Toast) :
  spec.tick dt t = Some t' -> session.content t' = session.content t.
Proof.
  unfold spec.tick.
  destruct (leb (lifetime (set_lifetime (sub (lifetime t) dt) t)) zero);
    [discriminate | ].
  intros [= <-]. reflexivity.
Qed.

Lemma subsequence_refl {A : Type} (l : list A) : session.subsequence l l.
Proof.
  induction l as [ | a rest IH]; [constructor | ].
  apply session.subsequence_keep, IH.
Qed.

Lemma subsequence_nil_l {A : Type} (l : list A) : session.subsequence [] l.
Proof.
  induction l as [ | a rest IH]; [constructor | ].
  apply session.subsequence_drop, IH.
Qed.

Lemma subsequence_trans {A : Type} (l1 l2 l3 : list A) :
  session.subsequence l1 l2 -> session.subsequence l2 l3 -> session.subsequence l1 l3.
Proof.
  intros H12 H23. revert l1 H12.
  induction H23 as [ | a sub l H23 IH | a sub l H23 IH]; intros l1 H12.
  - exact H12.
  - inversion H12 as [ | a' sub' l' H' | a' sub' l' H']; subst.
    + apply session.subsequence_keep, IH, H'.
    + apply session.subsequence_drop, IH, H'.
  - apply session.subsequence_drop, IH, H12.
Qed.

Lemma omap_tick_content (dt : float) (q : list Toast) :
  session.subsequence (map session.content (spec.omap (spec.tick dt) q))
                      (map session.content q).
Proof.
  induction q as [ | t rest IH]; [constructor | ].
  cbn [spec.omap map].
  destruct (spec.tick dt t) as [t' | ] eqn:Htick.
  - cbn [map]. rewrite (tick_content dt t t' Htick).
    apply session.subsequence_keep, IH.
  - apply session.subsequence_drop, IH.
Qed.

(** Frames change nothing in a toast but its remaining lifetime, add none
    and reorder none: the toasts in the queue after any frames are, lifetime
    apart, toasts that were in the queue before, in the order they had. *)
Theorem frames_only_age_and_remove (frames : list (float * Frame)) (w : World) :
  session.subsequence
    (map session.content (toasts_ (overlay (render_frames frames w))))
    (map session.content (toasts_ (overlay w))).
Proof.
  revert w. induction frames as [ | [dt fr] rest IH]; intros w.
  - apply subsequence_refl.
  - cbn [render_frames].
    apply (subsequence_trans _ _ _ (IH (fst (render dt fr w)))).
    destruct (render_queue dt fr w) as [Hq | Hq]; rewrite Hq.
    + apply omap_tick_content.
    + apply subsequence_nil_l.
Qed.

Lemma make_toast_well_formed (l : float) (e : core.ExceptionEvent) :
  core.severity e <> core.Critical -> session.toast_well_formed (make_toast l e).
Proof. intros Hsev. split; [exact Hsev | reflexivity]. Qed.

Lemma Forall_skipn_keep {A : Type} (P : A -> Prop) (n : nat) (l : list A) :
  Forall P l -> Forall P (skipn n l).
Proof.
  revert l. induction n as [ | n IH]; intros l Hl; [exact Hl | ].
  destruct l as [ | a rest]; [constructor | ].
  cbn [skipn]. inversion Hl; subst. apply IH. assumption.
Qed.

Lemma Forall_omap_tick (P : Toast -> Prop) (dt : float) (q : list Toast) :
  (forall t l, P t -> P (set_lifetime l t)) ->
  Forall P q -> Forall P (spec.omap (spec.tick dt) q).
Proof.
  intros Hset Hq. induction Hq as [ | t rest Ht Hrest IH]; [constructor | ].
  cbn [spec.omap]. unfold spec.tick at 1.
  destruct (leb (lifetime (set_lifetime (sub (lifetime t) dt) t)) zero);
    [exact IH | ].
  constructor; [apply Hset, Ht | exact IH].
Qed.

Lemma step_toasts_well_formed (op : session.Op) (w : World) :
  Forall session.toast_well_formed (toasts_ (overlay w)) ->
  Forall session.toast_well_formed (toasts_ (overlay (fst (session.step op w)))).
Proof.
  intros Hw. destruct op; cbn [session.step fst]; try exact Hw.
  - destruct (observer_cases ev w) as [-> | ->]; [exact Hw | ].
    destruct (core.LogLevel_eqb (core.severity ev) core.Critical) eqn:Hsev.
    + unfold on_exception. rewrite Hsev. cbn.
      destruct (update_statistics_toasts (core.severity ev) (overlay w)) as [Hq _].
      rewrite Hq. exact Hw.
    + assert (Hnot : core.severity ev <> core.Critical).
      { intros Heq. apply LogLevel_eqb_Critical in Heq. congruence. }
      destruct (on_exception_enqueues ev w Hnot) as [Hq _].
      rewrite Hq. unfold spec.most_recent. apply Forall_skipn_keep.
      apply Forall_app. split; [exact Hw | ].
      constructor; [apply make_toast_well_formed, Hnot | constructor].
  - destruct (render_queue dt fr w) as [Hq | Hq]; rewrite Hq; [ | constructor].
    apply Forall_omap_tick; [ | exact Hw].
    intros t l [Hsev Hcolor]. split; assumption.
  - constructor.
Qed.

(** Whatever happens to an overlay, no toast in its queue is critical, and
    every toast has the colour of its severity: the colour for Critical is
    never that of a toast. *)
Theorem queue_holds_no_critical_toast (ops : list session.Op) (w : World) :
  Forall session.toast_well_formed (toasts_ (overlay w)) ->
  Forall (fun t => severity t <> core.Critical /\
                   color t = severity_to_color (severity t) /\
                   color t <> severity_to_color core.Critical)
         (toasts_ (overlay (fst (session.run ops w)))).
Proof.
  intros Hw.
  pose proof (run_invariant
                (fun w => Forall session.toast_well_formed (toasts_ (overlay w)))
                step_toasts_well_formed ops w Hw) as Hrun.
  apply (Forall_impl _ (P := session.toast_well_formed)); [ | exact Hrun].
  intros t [Hsev Hcolor]. split; [exact Hsev | ]. split; [exact Hcolor | ].
  rewrite Hcolor. destruct (severity t); try discriminate. contradiction.
Qed.

(** *** The statistics window *)

Lemma step_statistics_closed (op : session.Op) (w : World) :
  show_statistics_ (overlay w) = false ->
  show_statistics_ (overlay (fst (session.step op w))) = false /\
  forallb (fun d => negb (session.is_statistics_window d)) (snd (session.step op w)) = true.
Proof.
  intros Hw. destruct op; cbn [session.step fst snd forallb]; auto.
  - split; [ | reflexivity].
    destruct (observer_cases ev w) as [-> | ->]; [exact Hw | ].
    destruct (on_exception_configuration ev w) as [_ [_ [_ [_ Hs]]]]. congruence.
  - destruct (render_queue_plain dt fr w Hw) as [_ Hs]. split; [exact Hs | ].
    unfold render.
    pose proof (render_toasts_queue dt fr w) as [_ [_ [Hs1 _]]].
    pose proof (render_toasts_only_toast_windows dt fr w) as Hd1.
    destruct (render_toasts dt fr w) as [w1 d1]. cbn [fst snd] in *.
    pose proof (render_modal_queue fr w1) as [_ Hs2].
    assert (Hd2 : forallb (fun d => negb (session.is_statistics_window d))
                    (snd (render_modal fr w1)) = true).
    { unfold render_modal. destruct (critical_popup_open (imgui w1)); [ | reflexivity].
      destruct (view_logs_pressed fr), (continue_pressed fr); reflexivity. }
    destruct (render_modal fr w1) as [w2 d2]. cbn [fst snd] in *.
    assert (Hw2 : show_statistics_ (overlay w2) = false) by congruence.
    rewrite Hw2. cbn [snd]. rewrite forallb_app, Hd2, andb_true_r.
    apply forallb_forall. intros d Hd.
    destruct (Hd1 d Hd) as [x [y [a [t ->]]]]. reflexivity.
Qed.

(** Nothing opens the statistics window: the flag that shows it starts
    false and no operation sets it, so no frame draws the window, and its
    Clear All button is never there to press. *)
Theorem statistics_window_never_opens (ops : list session.Op) (w : World) :
  show_statistics_ (overlay w) = false ->
  show_statistics_ (overlay (fst (session.run ops w))) = false /\
  forallb (fun d => negb (session.is_statistics_window d)) (snd (session.run ops w)) = true.
Proof.
  revert w. induction ops as [ | op ops IH]; intros w Hw; [split; [exact Hw | reflexivity] | ].
  rewrite run_cons. cbn [fst snd].
  destruct (step_statistics_closed op w Hw) as [Hs Hd].
  destruct (IH _ Hs) as [Hs' Hd'].
  split; [exact Hs' | ]. rewrite forallb_app, Hd, Hd'. reflexivity.
Qed.

(** *** The bound of the queue *)

Lemma omap_length {A B : Type} (f : A -> option B) (l : list A) :
  (List.length (spec.omap f l) <= List.length l)%nat.
Proof.
  induction l as [ | a rest IH]; [apply Nat.le_refl | ].
  cbn [spec.omap]. destruct (f a); cbn [List.length]; lia.
Qed.

Lemma step_within_bound (op : session.Op) (w : World) :
  session.is_set_max_toasts op = false ->
  (List.length (toasts_ (overlay w)) <= N.to_nat (max_toasts_ (overlay w)))%nat ->
  (List.length (toasts_ (overlay (fst (session.step op w))))
   <= N.to_nat (max_toasts_ (overlay (fst (session.step op w)))))%nat.
Proof.
  intros Hop Hw. destruct op; cbn [session.step fst]; try exact Hw;
    try discriminate.
  - destruct (observer_cases ev w) as [-> | ->]; [exact Hw | ].
    destruct (on_exception_configuration ev w) as [Hmax _]. rewrite Hmax.
    destruct (core.LogLevel_eqb (core.severity ev) core.Critical) eqn:Hsev.
    + unfold on_exception. rewrite Hsev. cbn.
      destruct (update_statistics_toasts (core.severity ev) (overlay w)) as [Hq _].
      rewrite Hq. exact Hw.
    + apply on_exception_bounded. intros Heq.
      apply LogLevel_eqb_Critical in Heq. congruence.
  - destruct (render_keeps dt fr w) as [_ [Hmax _]]. rewrite Hmax.
    destruct (render_queue dt fr w) as [Hq | Hq]; rewrite Hq.
    + pose proof (omap_length (spec.tick dt) (toasts_ (overlay w))). lia.
    + cbn. lia.
  - cbn. lia.
Qed.

(** Events, frames, [clear()] and the other setters keep the queue within
    [max_toasts_], whatever their order and number. *)
Theorem queue_stays_within_bound (ops : list session.Op) (w : World) :
  forallb (fun op => negb (session.is_set_max_toasts op)) ops = true ->
  (List.length (toasts_ (overlay w)) <= N.to_nat (max_toasts_ (overlay w)))%nat ->
  (List.length (toasts_ (overlay (fst (session.run ops w))))
   <= N.to_nat (max_toasts_ (overlay w)))%nat /\
  max_toasts_ (overlay (fst (session.run ops w))) = max_toasts_ (overlay w).
Proof.
  revert w. induction ops as [ | op ops IH]; intros w Hops Hw;
    [split; [exact Hw | reflexivity] | ].
  cbn [forallb] in Hops. apply andb_true_iff in Hops. destruct Hops as [Hop Hops].
  apply negb_true_iff in Hop.
  rewrite run_cons. cbn [fst].
  assert (Hmax : max_toasts_ (overlay (fst (session.step op w))) = max_toasts_ (overlay w)).
  { destruct op; cbn [session.step fst]; try reflexivity; try discriminate.
    - destruct (observer_cases ev w) as [-> | ->]; [reflexivity | ].
      apply on_exception_configuration.
    - apply render_keeps. }
  destruct (IH _ Hops (step_within_bound op w Hop Hw)) as [Hlen Hsame].
  rewrite Hmax in Hlen, Hsame. split; assumption.
Qed.

(** [set_max_toasts] removes nothing by itself, and a frame removes only
    what expires: a bound made smaller takes effect when the next event
    that is not critical arrives, which leaves the most recent toasts
    within the new bound. With a bound of zero it leaves none. *)
Theorem smaller_bound_applies_at_next_event (max : N) (e : core.ExceptionEvent)
  (w : World) :
  core.severity e <> core.Critical ->
  let w1 := session.on_overlay (set_max_toasts max) w in
  toasts_ (overlay w1) = toasts_ (overlay w) /\
  toasts_ (overlay (on_exception e w1)) =
    spec.most_recent (N.to_nat max)
      (toasts_ (overlay w) ++ [make_toast (toast_lifetime_ (overlay w)) e]) /\
  (List.length (toasts_ (overlay (on_exception e w1))) <= N.to_nat max)%nat /\
  (max = 0%N -> toasts_ (overlay (on_exception e w1)) = []).
Proof.
  intros Hsev w1.
  destruct (on_exception_enqueues e w1 Hsev) as [Hq _].
  cbn [w1 session.on_overlay overlay set_max_toasts toasts_ max_toasts_
       toast_lifetime_] in Hq.
  split; [reflexivity | ]. split; [exact Hq | ].
  assert (Hlen : (List.length (toasts_ (overlay (on_exception e w1))) <= N.to_nat max)%nat).
  { rewrite Hq, most_recent_length. lia. }
  split; [exact Hlen | ].
  intros ->. destruct (toasts_ (overlay (on_exception e w1))); [reflexivity | ].
  cbn in Hlen. lia.
Qed.

(** *** The two paths of an event *)

(** An event that is not critical leaves the modal slot, the popup and the
    clipboard as they are: a toast neither replaces nor closes a pending
    critical event. *)
Theorem toast_leaves_modal_alone (e : core.ExceptionEvent) (w : World) :
  core.severity e <> core.Critical ->
  modal_error_ (overlay (on_exception e w)) = modal_error_ (overlay w) /\
  imgui (on_exception e w) = imgui w.
Proof.
  intros Hsev. unfold on_exception.
  destruct (core.LogLevel_eqb (core.severity e) core.Critical) eqn:Heq.
  - apply LogLevel_eqb_Critical in Heq. contradiction.
  - cbn. destruct (update_statistics_toasts (core.severity e) (overlay w))
      as [_ [_ [_ Hmodal]]].
    split; [exact Hmodal | reflexivity].
Qed.

(** *** The location shown in a toast *)

Lemma has_separator_app (a b : string) :
  has_separator (a ++ b) = has_separator a || has_separator b.
Proof.
  induction a as [ | c rest IH]; [reflexivity | ].
  cbn [String.append has_separator]. rewrite IH, orb_assoc. reflexivity.
Qed.

Lemma filename_plain (name : string) :
  has_separator name = false -> filename name = name.
Proof.
  destruct name as [ | c rest]; [reflexivity | ].
  cbn [has_separator filename]. intros H.
  apply orb_false_iff in H. destruct H as [Hc Hrest]. rewrite Hrest, Hc. reflexivity.
Qed.

Lemma filename_after_directory (dir name : string) :
  has_separator name = false -> filename (dir ++ "/" ++ name) = name.
Proof.
  intros Hname. induction dir as [ | c rest IH].
  - cbn [String.append filename]. rewrite Hname. reflexivity.
  - cbn [String.append filename].
    rewrite has_separator_app. cbn [String.append has_separator].
    change (is_separator "/") with true. cbn [orb].
    rewrite orb_true_r. exact IH.
Qed.

(** A toast shows the file without its directories and the line: for a
    source file [dir/name] where [name] has no separator, [name:line]; for a
    path with no separator, the path and the line. *)
Theorem toast_location_is_file_and_line (dir name : string) (l : float)
  (e : core.ExceptionEvent) :
  has_separator name = false ->
  (core.file_name (core.location e) = (dir ++ "/" ++ name)%string \/
   core.file_name (core.location e) = name) ->
  location (make_toast l e) =
    (name ++ ":" ++ format_N (core.line (core.location e)))%string /\
  has_separator (filename (core.file_name (core.location e))) = false.
Proof.
  intros Hname Hfile. unfold make_toast, format_location. cbn [location].
  destruct Hfile as [-> | ->].
  - rewrite filename_after_directory by exact Hname. split; [reflexivity | exact Hname].
  - rewrite filename_plain by exact Hname. split; [reflexivity | exact Hname].
Qed.

End OverlayInUse.

(** * The reporter and the overlay together *)

Section Together.

Import Float32.
Import visualizer.

(** A failure absorbed by an adapter reaches the overlay as one event, and
    counts as one error whatever was thrown; an object recognised as a
    std::exception becomes a toast that carries its text and category,
    anything else becomes the pending modal. *)
Theorem wrapped_failure_reaches_overlay {A R : Type} `{core.Instantiated R}
  (f : A -> core.Call World R) (loc : core.source_location) (args : A)
  (p p1 : core.Process World) (t : core.Thrown) :
  f args p = (core.Threw t, p1) ->
  core.observers_ (core.handler p1) = [observer] ->
  enabled_ (overlay (core.world p1)) = true ->
  let ev := spec.fault_event t loc (core.steady_clock p1) in
  let w' := core.world (snd (core.wrap f loc args p)) in
  w' = on_exception ev (core.world p1) /\
  get_error_count (overlay w') =
    ((get_error_count (overlay (core.world p1)) + 1) mod 2 ^ 64)%N /\
  if spec.exposes_description t then
    toasts_ (overlay w') =
      spec.most_recent (N.to_nat (max_toasts_ (overlay (core.world p1))))
        (toasts_ (overlay (core.world p1))
           ++ [make_toast (toast_lifetime_ (overlay (core.world p1))) ev]) /\
    core.message ev = core.what_of t /\ core.severity ev = core.Error
  else
    modal_error_ (overlay w') = Some ev /\
    toasts_ (overlay w') = toasts_ (overlay (core.world p1)) /\
    core.message ev = "Unknown exception" /\ core.severity ev = core.Critical.
Proof.
  intros Hthrow Hobs Henabled ev w'.
  assert (Hw' : w' = on_exception ev (core.world p1)).
  { unfold w'. rewrite wrap_run, Hthrow. unfold spec.published. cbn [snd core.world
      core.with_world]. rewrite Hobs. cbn [core.notify fold_left].
    unfold observer. rewrite Henabled. reflexivity. }
  split; [exact Hw' | ].
  assert (Hsev : if spec.exposes_description t
                 then core.severity ev = core.Error
                 else core.severity ev = core.Critical).
  { unfold ev, spec.fault_event, spec.classification, spec.exposes_description.
    cbn [core.severity].
    destruct t as [ty what | ]; cbn [spec.in_domain]; [ | reflexivity].
    destruct (core.is_a ty core.filesystem_error) eqn:Hfs;
      [rewrite (is_a_exception ty _ Hfs); reflexivity | ].
    destruct (core.is_a ty core.system_error) eqn:Hsys;
      [rewrite (is_a_exception ty _ Hsys); reflexivity | ].
    destruct (core.is_a ty core.runtime_error) eqn:Hrt;
      [rewrite (is_a_exception ty _ Hrt); reflexivity | ].
    destruct (core.is_a ty core.exception); reflexivity. }
  split.
  - rewrite Hw'. unfold get_error_count.
    pose proof (on_exception_counters ev (core.world p1)) as Hc.
    assert (Hcount : session.counts_as_error (core.severity ev) = true)
      by (destruct (spec.exposes_description t); rewrite Hsev; reflexivity).
    rewrite update_statistics_counters, Hcount in Hc. unfold session.counters in Hc.
    injection Hc as Hc _ _. exact Hc.
  - destruct (spec.exposes_description t) eqn:Hexposes.
    + assert (Hnot : core.severity ev <> core.Critical) by (rewrite Hsev; discriminate).
      destruct (on_exception_enqueues ev (core.world p1) Hnot) as [Hq _].
      rewrite Hw'. split; [exact Hq | ]. split; [ | exact Hsev].
      unfold ev, spec.fault_event, spec.description. cbn [core.message].
      destruct t as [ty what | ]; [rewrite Hexposes; reflexivity | discriminate Hexposes].
    + rewrite Hw'. unfold on_exception. rewrite Hsev. cbn.
      repeat split.
      unfold ev, spec.fault_event, spec.description. cbn [core.message].
      destruct t as [ty what | ]; [rewrite Hexposes; reflexivity | reflexivity].
Qed.

(** While the overlay is disabled, what is reported is lost to it: no
    counter moves, no toast is queued, no modal is set, and enabling it
    again brings nothing back. The adapter and [report] return as usual. *)
Theorem disabled_overlay_drops_events {A R : Type} `{core.Instantiated R}
  (f : A -> core.Call World R) (loc : core.source_location) (args : A)
  (msg : string) (sev : core.Severity) (p : core.Process World) :
  core.observers_ (core.handler p) = [observer] ->
  enabled_ (overlay (core.world p)) = false ->
  core.report msg sev loc p = (core.Returned tt, p) /\
  match f args p with
  | (core.Returned v, p1) => core.wrap f loc args p = (core.Returned v, p1)
  | (core.Threw t, p1) =>
      core.observers_ (core.handler p1) = [observer] ->
      enabled_ (overlay (core.world p1)) = false ->
      core.wrap f loc args p = (core.Returned core.nothing, p1)
  end.
Proof.
  intros Hobs Hdisabled.
  assert (Hsilent : forall ev q, core.observers_ (core.handler q) = [observer] ->
                                 enabled_ (overlay (core.world q)) = false ->
                                 spec.published ev q = q).
  { intros ev q Hq Hd. unfold spec.published. rewrite Hq. cbn [core.notify fold_left].
    unfold observer. rewrite Hd. destruct q; reflexivity. }
  split.
  - unfold core.report. rewrite handle_exception_publishes, Hsilent by assumption.
    reflexivity.
  - rewrite wrap_run. destruct (f args p) as [[v | t] p1]; [reflexivity | ].
    intros Hobs1 Hdisabled1. rewrite Hsilent by assumption. reflexivity.
Qed.

End Together.

(** * Colours *)

Section Colours.

Local Open Scope Z_scope.

Lemma land_255 (x : Z) : Z.land x 255 = x mod 256.
Proof. change 255 with (Z.ones 8). rewrite Z.land_ones by lia. reflexivity. Qed.

Lemma shiftl_channel (x : Z) (n : Z) : 0 <= n -> Z.shiftl x n = x * 2 ^ n.
Proof. intros Hn. apply Z.shiftl_mul_pow2, Hn. Qed.

Lemma shiftr_channel (x : Z) (n : Z) : 0 <= n -> Z.shiftr x n = x / 2 ^ n.
Proof. intros Hn. apply Z.shiftr_div_pow2, Hn. Qed.

(** The channel at [shift] of a packed colour, and those of [IM_COL32]. *)
Lemma channel_of_IM_COL32 (r g b a : Z) :
  0 <= r < 256 -> 0 <= g < 256 -> 0 <= b < 256 -> 0 <= a < 256 ->
  Z.land (Z.shiftr (visualizer.IM_COL32 r g b a) 0) 255 = r /\
  Z.land (Z.shiftr (visualizer.IM_COL32 r g b a) 8) 255 = g /\
  Z.land (Z.shiftr (visualizer.IM_COL32 r g b a) 16) 255 = b /\
  Z.land (Z.shiftr (visualizer.IM_COL32 r g b a) 24) 255 = a.
Proof.
  intros Hr Hg Hb Ha. unfold visualizer.IM_COL32.
  rewrite !Z.shiftr_lor, !Z.land_lor_distr_l, !land_255.
  rewrite !shiftl_channel, !shiftr_channel by lia.
  change (2 ^ 0) with 1. change (2 ^ 8) with 256.
  change (2 ^ 16) with 65536. change (2 ^ 24) with 16777216.
  repeat match goal with
         | |- context [?t mod 256] =>
             let H := fresh "H" in
             first [ assert (H : t mod 256 = 0) by (Z.div_mod_to_equations; lia)
                   | assert (H : t mod 256 = r) by (Z.div_mod_to_equations; lia)
                   | assert (H : t mod 256 = g) by (Z.div_mod_to_equations; lia)
                   | assert (H : t mod 256 = b) by (Z.div_mod_to_equations; lia)
                   | assert (H : t mod 256 = a) by (Z.div_mod_to_equations; lia) ];
             rewrite H; clear H
         end.
  rewrite ?Z.lor_0_l, ?Z.lor_0_r. repeat split.
Qed.

(** The earlier variant fills a toast with the colour of its border at
    alpha 200: unpacking a colour packed by [IM_COL32] gives the three
    channels back, whatever its alpha was. *)
Theorem legacy_background_keeps_rgb (r g b a : Z) :
  0 <= r < 256 -> 0 <= g < 256 -> 0 <= b < 256 -> 0 <= a < 256 ->
  legacy.window_background (visualizer.IM_COL32 r g b a) = visualizer.IM_COL32 r g b 200.
Proof.
  intros Hr Hg Hb Ha. unfold legacy.window_background.
  destruct (channel_of_IM_COL32 r g b a Hr Hg Hb Ha) as [-> [-> [-> _]]].
  reflexivity.
Qed.

End Colours.

(** * The ring settings of the scene renderer *)

Section RingSettings.

Import Float32.
Import scene.

(** Comparing the other way round gives the opposite answer. *)
Lemma SFcompare_antisym (x y : float) :
  SFcompare y x = option_map CompOpp (SFcompare x y).
Proof.
  destruct x as [sx | sx | | sx mx ex], y as [sy | sy | | sy my ey];
    try reflexivity;
    try (destruct sx; reflexivity); try (destruct sy; reflexivity);
    try (destruct sx, sy; reflexivity).
  assert (Hm : Pos.compare_cont Eq my mx = CompOpp (Pos.compare_cont Eq mx my))
    by (symmetry; apply (Pos.compare_cont_antisym mx my Eq)).
  cbn [SFcompare option_map].
  rewrite (Z.compare_antisym ex ey), Hm.
  destruct sx, sy; try reflexivity;
    destruct (ex ?= ey); cbn [CompOpp]; try reflexivity;
    destruct (Pos.compare_cont Eq mx my); reflexivity.
Qed.

Lemma not_ltb_leb (x y : float) :
  is_nan x = false -> is_nan y = false -> ltb x y = false -> leb y x = true.
Proof.
  unfold ltb, leb, SFltb, SFleb. rewrite (SFcompare_antisym x y).
  destruct x as [sx | sx | | sx mx ex], y as [sy | sy | | sy my ey];
    try discriminate; intros _ _;
    destruct (SFcompare _ _) as [[ | | ] | ] eqn:Hc; cbn; try discriminate;
    try reflexivity; cbn in Hc; try discriminate.
Qed.

Lemma ltb_leb (x y : float) : ltb x y = true -> leb x y = true.
Proof.
  unfold ltb, leb, SFltb, SFleb.
  destruct (SFcompare x y) as [[ | | ] | ]; try discriminate; reflexivity.
Qed.

Lemma clamp_in_unit_range (x : float) :
  is_nan x = false -> in_unit_range (glm_clamp x zero one).
Proof.
  intros Hx. unfold glm_clamp, glm_max, glm_min, in_unit_range.
  destruct (ltb x zero) eqn:Hlow.
  - change (ltb one zero) with false. cbv iota. split; reflexivity.
  - destruct (ltb one x) eqn:Hhigh.
    + split; reflexivity.
    + split.
      * apply not_ltb_leb; [exact Hx | reflexivity | exact Hlow].
      * apply not_ltb_leb; [reflexivity | exact Hx | exact Hhigh].
Qed.

Lemma leb_not_ltb (x y : float) : leb x y = true -> ltb y x = false.
Proof.
  unfold ltb, leb, SFltb, SFleb. rewrite (SFcompare_antisym x y).
  destruct (SFcompare x y) as [[ | | ] | ]; try discriminate; reflexivity.
Qed.

Lemma clamp_of_unit_range (x : float) :
  in_unit_range x -> glm_clamp x zero one = x.
Proof.
  intros [Hlow Hhigh]. unfold glm_clamp, glm_max, glm_min.
  rewrite (leb_not_ltb zero x Hlow), (leb_not_ltb x one Hhigh). reflexivity.
Qed.

Lemma in_unit_range_not_nan (x : float) : in_unit_range x -> is_nan x = false.
Proof. intros [Hlow _]. destruct x; [reflexivity | reflexivity | discriminate | reflexivity]. Qed.

(** [setRingSize] and [setRingSelectionAlpha] store a value between 0 and 1
    for every argument that is a number, the argument itself when it is
    between 0 and 1; NaN is stored as it is. Setting what was read back
    changes nothing. *)
Theorem ring_setters_clamp (x : float) (c : SplatRenderConfig) :
  (is_nan x = false ->
   in_unit_range (getRingSize (setRingSize x c)) /\
   in_unit_range (getRingSelectionAlpha (setRingSelectionAlpha x c))) /\
  (in_unit_range x ->
   getRingSize (setRingSize x c) = x /\
   getRingSelectionAlpha (setRingSelectionAlpha x c) = x) /\
  (is_nan x = true ->
   is_nan (getRingSize (setRingSize x c)) = true /\
   is_nan (getRingSelectionAlpha (setRingSelectionAlpha x c)) = true) /\
  setRingSize (getRingSize (setRingSize x c)) (setRingSize x c) = setRingSize x c /\
  setRingSelectionAlpha (getRingSelectionAlpha (setRingSelectionAlpha x c))
    (setRingSelectionAlpha x c) = setRingSelectionAlpha x c.
Proof.
  assert (Hidem : glm_clamp (glm_clamp x zero one) zero one = glm_clamp x zero one).
  { destruct (is_nan x) eqn:Hx.
    - destruct x; try discriminate. reflexivity.
    - apply clamp_of_unit_range, clamp_in_unit_range, Hx. }
  split; [ | split; [ | split; [ | split]]].
  - intros Hx. split; apply clamp_in_unit_range, Hx.
  - intros Hx. split; apply clamp_of_unit_range, Hx.
  - intros Hx. destruct x; try discriminate. split; reflexivity.
  - unfold setRingSize, getRingSize. cbn -[glm_clamp zero one]. rewrite Hidem. reflexivity.
  - unfold setRingSelectionAlpha, getRingSelectionAlpha. cbn -[glm_clamp zero one].
    rewrite Hidem. reflexivity.
Qed.

(** Whatever the sliders of the panel answer, if it is a number, the ring
    size and the selection alpha of the renderer stay between 0 and 1 from
    frame to frame, and the colours and the mode are not touched. *)
Theorem ring_settings_stay_in_range (frames : list RingWidgets) (c : SplatRenderConfig) :
  Forall (fun ws =>
            match ring_thickness ws with Some x => is_nan x = false | None => True end /\
            match selection_alpha_slider ws with Some x => is_nan x = false | None => True end)
         frames ->
  in_unit_range (ring_size c) -> in_unit_range (selection_alpha c) ->
  let c' := fold_left (fun c ws => renderRingSettings ws c) frames c in
  in_unit_range (ring_size c') /\ in_unit_range (selection_alpha c') /\
  mode c' = mode c /\
  (selected_color c', unselected_color c', locked_color c') =
  (selected_color c, unselected_color c, locked_color c).
Proof.
  intros Hframes. revert c.
  induction Hframes as [ | ws rest [Hsize Halpha] Hrest IH]; intros c Hr Ha.
  - cbn. auto.
  - cbn [fold_left].
    assert (Hstep : in_unit_range (ring_size (renderRingSettings ws c)) /\
                    in_unit_range (selection_alpha (renderRingSettings ws c)) /\
                    mode (renderRingSettings ws c) = mode c /\
                    (selected_color (renderRingSettings ws c),
                     unselected_color (renderRingSettings ws c),
                     locked_color (renderRingSettings ws c)) =
                    (selected_color c, unselected_color c, locked_color c)).
    { unfold renderRingSettings, when_changed.
      destruct (ring_thickness ws) as [x | ], (selection_alpha_slider ws) as [y | ],
        (show_selection_overlay ws) as [o | ]; cbn;
        repeat split; try apply Hr; try apply Ha;
        try (apply clamp_in_unit_range; assumption). }
    destruct Hstep as [Hr' [Ha' [Hm' Hc']]].
    destruct (IH _ Hr' Ha') as [Hr'' [Ha'' [Hm'' Hc'']]].
    split; [exact Hr'' | ]. split; [exact Ha'' | ].
    split; congruence.
Qed.

(** Reset to Defaults gives the three colours the values a new
    configuration has, whatever they were and whatever was edited in the
    same frame, and leaves the other settings as they are. *)
Theorem reset_restores_default_colours (ws : RingWidgets) (c : SplatRenderConfig) :
  reset_pressed ws = true ->
  let c' := renderColorControls ws c in
  selected_color c' = selected_color default_config /\
  unselected_color c' = unselected_color default_config /\
  locked_color c' = locked_color default_config /\
  (mode c', ring_size c', selection_alpha c', show_overlay c') =
  (mode c, ring_size c, selection_alpha c, show_overlay c).
Proof.
  intros Hreset. unfold renderColorControls, when_changed. rewrite Hreset.
  destruct (selected_edit ws), (unselected_edit ws), (locked_edit ws); repeat split.
Qed.

End RingSettings.

(** * The main loop of the viewer *)

Section MainLoop.

Local Open Scope Z_scope.

(** With a positive target, when a sleep lasts as long as asked, two frames
    are at least the target duration, 1000000 / target_fps microseconds
    rounded down, apart; the sleep asked for is never longer than that. *)
Theorem limitFrameRate_spaces_frames (target_fps last now resumed : Z) :
  0 < target_fps ->
  last <= now ->
  exists slept : option Z,
    viewer.limitFrameRate target_fps last now resumed = Some (slept, resumed) /\
    match slept with
    | Some d => 0 < d <= Z.quot 1000000 target_fps
    | None => 1000 * Z.quot 1000000 target_fps <= now - last
    end /\
    (viewer.resumed_after slept now resumed ->
     1000 * Z.quot 1000000 target_fps <= resumed - last).
Proof.
  intros Hfps Hlast. unfold viewer.limitFrameRate.
  destruct (Z.eqb_spec target_fps 0) as [Hz | _]; [lia | ].
  generalize (Z.quot 1000000 target_fps). intros target.
  assert (Hquot : 0 <= Z.quot (now - last) 1000 /\
                  1000 * Z.quot (now - last) 1000 <= now - last).
  { rewrite Z.quot_div_nonneg by lia. Z.div_mod_to_equations. lia. }
  destruct (Z.ltb_spec (Z.quot (now - last) 1000) target) as [Hlt | Hge].
  - eexists. split; [reflexivity | ]. cbn [viewer.resumed_after]. lia.
  - eexists. split; [reflexivity | ]. cbn [viewer.resumed_after]. lia.
Qed.

(** [setTargetFPS] takes any number. A negative target or one above
    1000000 switches the limiter off: it never sleeps. A target of 0 makes
    the limiter divide by zero. *)
Theorem limitFrameRate_without_limit (target_fps last now resumed : Z) :
  last <= now ->
  (target_fps < 0 \/ 1000000 < target_fps ->
   viewer.limitFrameRate target_fps last now resumed = Some (None, resumed)) /\
  (target_fps = 0 ->
   viewer.limitFrameRate target_fps last now resumed = None).
Proof.
  intros Hlast. unfold viewer.limitFrameRate. split.
  - intros Hfps.
    destruct (Z.eqb_spec target_fps 0) as [Hz | _]; [lia | ].
    assert (Htarget : Z.quot 1000000 target_fps <= 0).
    { destruct Hfps as [Hneg | Hbig].
      - replace target_fps with (- (- target_fps)) by lia.
        rewrite Z.quot_opp_r by lia.
        pose proof (Z.quot_pos 1000000 (- target_fps)). lia.
      - rewrite Z.quot_small by lia. lia. }
    assert (Hquot : 0 <= Z.quot (now - last) 1000).
    { apply Z.quot_pos; lia. }
    destruct (Z.ltb_spec (Z.quot (now - last) 1000) (Z.quot 1000000 target_fps));
      [lia | reflexivity].
  - intros ->. reflexivity.
Qed.

(** After [updateWindowSize] the window size kept is the one reported. The
    framebuffer size is taken only when the window size has changed: a
    second report with the same window size changes nothing and resizes
    nothing, whatever framebuffer size it carries. *)
Theorem updateWindowSize_follows_window (winW winH fbW fbH : Z) (s : viewer.Sizes) :
  let r := viewer.updateWindowSize winW winH fbW fbH s in
  viewer.windowSize (fst r) = (winW, winH) /\
  (snd r = true -> viewer.frameBufferSize (fst r) = (fbW, fbH)) /\
  (snd r = false -> fst r = s) /\
  forall fbW' fbH' : Z,
    viewer.updateWindowSize winW winH fbW' fbH' (fst r) = (fst r, false).
Proof.
  unfold viewer.updateWindowSize.
  destruct s as [[w h] fb]. cbn [viewer.windowSize fst snd].
  destruct (Z.eqb_spec w winW) as [-> | Hw], (Z.eqb_spec h winH) as [-> | Hh];
    cbn [negb orb fst snd viewer.windowSize viewer.frameBufferSize];
    rewrite ?Z.eqb_refl; cbn [negb orb];
    repeat split; try discriminate; try reflexivity;
    intros; rewrite ?Z.eqb_refl; reflexivity.
Qed.

Lemma count_test_cameras_step (n : nat) :
  ((S n + 7) / 8 = (n + 7) / 8 + (if Nat.eqb (Nat.modulo n 8) 0 then 1 else 0))%nat.
Proof.
  destruct (Nat.eqb_spec (Nat.modulo n 8) 0) as [Hz | Hnz].
  - pose proof (Nat.div_mod_eq n 8) as Hn. rewrite Hz, Nat.add_0_r in Hn.
    rewrite Hn at 1 2.
    replace (S (8 * (n / 8)) + 7)%nat with ((n / 8 + 1) * 8)%nat by lia.
    replace (8 * (n / 8) + 7)%nat with (7 + (n / 8) * 8)%nat by lia.
    rewrite Nat.div_mul by lia. rewrite Nat.div_add by lia. cbn. lia.
  - pose proof (Nat.div_mod_eq n 8) as Hn.
    pose proof (Nat.mod_upper_bound n 8) as Hb.
    assert (Hlow : (8 * (n / 8 + 1) <= n + 7)%nat) by lia.
    assert (Hhigh : (S n + 7 < 8 * (n / 8 + 1 + 1))%nat) by lia.
    assert (E1 : ((n + 7) / 8 = n / 8 + 1)%nat).
    { symmetry. apply (Nat.div_unique (n + 7) 8 (n / 8 + 1) (n mod 8 - 1)); lia. }
    assert (E2 : ((S n + 7) / 8 = n / 8 + 1)%nat).
    { symmetry. apply (Nat.div_unique (S n + 7) 8 (n / 8 + 1) (n mod 8)); lia. }
    lia.
Qed.

(** Of [n] cameras, the ones marked for testing are those whose index is a
    multiple of 8, the first one included: [n / 8] of them, rounded up. *)
Theorem every_eighth_camera_is_test (n : nat) :
  List.length (viewer.is_test_camera n) = n /\
  (forall i : nat, (i < n)%nat ->
     nth i (viewer.is_test_camera n) false = Nat.eqb (Nat.modulo i 8) 0) /\
  count_occ bool_dec (viewer.is_test_camera n) true = ((n + 7) / 8)%nat.
Proof.
  unfold viewer.is_test_camera. split; [ | split].
  - rewrite length_map, length_seq. reflexivity.
  - intros i Hi.
    rewrite (nth_indep _ false (Nat.eqb (Nat.modulo 0 8) 0))
      by (rewrite length_map, length_seq; exact Hi).
    rewrite (map_nth (fun i => Nat.eqb (Nat.modulo i 8) 0) (seq 0 n) 0%nat i).
    rewrite seq_nth by exact Hi. reflexivity.
  - induction n as [ | n IH]; [reflexivity | ].
    rewrite seq_S, map_app, count_occ_app, IH, count_test_cameras_step.
    cbn [map count_occ Nat.add].
    destruct (Nat.eqb (Nat.modulo n 8) 0); cbn; lia.
Qed.

End MainLoop.

(** * The properties above on concrete inputs *)

Section Instances.

Import Float32.
Import visualizer.

Lemma counters_tally_events_witness :
  let evs := [spec.warn "A"; spec.critical "B"; spec.warn "C"] in
  (error_count_ (overlay spec.fresh) < 2 ^ 64)%N /\
  (warning_count_ (overlay spec.fresh) < 2 ^ 64)%N /\
  (info_count_ (overlay spec.fresh) < 2 ^ 64)%N /\
  get_error_count (overlay (spec.deliver evs spec.fresh)) = 1%N /\
  get_warning_count (overlay (spec.deliver evs spec.fresh)) = 2%N.
Proof.
  intros evs.
  assert (He : (error_count_ (overlay spec.fresh) < 2 ^ 64)%N) by reflexivity.
  assert (Hw : (warning_count_ (overlay spec.fresh) < 2 ^ 64)%N) by reflexivity.
  assert (Hi : (info_count_ (overlay spec.fresh) < 2 ^ 64)%N) by reflexivity.
  repeat (split; [assumption | ]).
  destruct (counters_tally_events evs spec.fresh He Hw Hi) as [Herr [Hwarn _]].
  rewrite Herr, Hwarn. split; reflexivity.
Defined.

Lemma counters_move_with_events_only_witness :
  let w := on_exception (spec.warn "A") spec.fresh in
  let ops := [session.RenderFrame (literal 1 60) spec.quiet; session.Clear;
              session.SetMaxToasts 2] in
  forallb (fun op => negb (session.is_event op)) ops = true /\
  session.counters (overlay (fst (session.run ops w))) = (0%N, 1%N, 0%N).
Proof.
  intros w ops. split; [reflexivity | ].
  rewrite (counters_move_with_events_only ops w eq_refl). reflexivity.
Defined.

Lemma fresh_modal_consistent : session.modal_consistent spec.fresh.
Proof. intros e He. discriminate He. Defined.

Lemma pending_critical_event_is_shown_witness :
  let ops := [session.Event (spec.critical "B"); session.Event (spec.warn "A");
              session.RenderFrame zero spec.quiet] in
  session.modal_consistent spec.fresh /\
  modal_error_ (overlay (fst (session.run ops spec.fresh))) = Some (spec.critical "B") /\
  In (CriticalErrorPopup (Some (spec.critical "B")))
     (snd (render zero spec.quiet (fst (session.run ops spec.fresh)))).
Proof.
  intros ops.
  assert (Hpending : modal_error_ (overlay (fst (session.run ops spec.fresh)))
                     = Some (spec.critical "B")) by reflexivity.
  split; [exact fresh_modal_consistent | ]. split; [exact Hpending | ].
  apply (pending_critical_event_is_shown ops spec.fresh (spec.critical "B")
           zero spec.quiet fresh_modal_consistent Hpending).
Defined.

Lemma modal_waits_for_dismissal_witness :
  let w := on_exception (spec.critical "B") spec.fresh in
  view_logs_pressed spec.quiet = false /\
  continue_pressed spec.quiet = false /\
  clear_all_pressed spec.quiet = false /\
  modal_error_ (overlay (fst (render (of_Z 3600) spec.quiet w))) =
    Some (spec.critical "B").
Proof.
  intros w. repeat (split; [reflexivity | ]).
  destruct (modal_waits_for_dismissal (of_Z 3600) spec.quiet w eq_refl eq_refl eq_refl)
    as [Hslot _].
  rewrite Hslot. reflexivity.
Defined.

Lemma dismissal_closes_the_modal_witness :
  let w := on_exception (spec.critical "B") spec.fresh in
  let pressed :=
    mk_Frame (viewport spec.quiet) (toast_window_height spec.quiet)
      false false true false false false in
  critical_popup_open (imgui w) = true /\
  view_logs_pressed pressed || continue_pressed pressed = true /\
  modal_error_ (overlay (fst (render zero pressed w))) = None.
Proof.
  intros w pressed. split; [reflexivity | ]. split; [reflexivity | ].
  apply (dismissal_closes_the_modal zero zero pressed spec.quiet w eq_refl eq_refl).
Defined.

Lemma unknown_corner_is_top_right_witness :
  (7 < 0 \/ 3 < 7) /\
  snd (render zero spec.quiet
         (session.on_overlay (set_position_corner 7)
            (on_exception (spec.warn "A") spec.fresh))) =
  snd (render zero spec.quiet
         (session.on_overlay (set_position_corner 0)
            (on_exception (spec.warn "A") spec.fresh))).
Proof.
  assert (H : 7 < 0 \/ 3 < 7) by (right; reflexivity).
  split; [exact H | ].
  apply (unknown_corner_is_top_right 7 zero spec.quiet _ H).
Defined.

Lemma frame_of_zero_seconds_witness :
  let w := on_exception (spec.warn "A") spec.fresh in
  show_statistics_ (overlay w) = false /\
  toasts_ (overlay (fst (render zero spec.quiet w))) = toasts_ (overlay w).
Proof.
  intros w. split; [reflexivity | ].
  destruct (frame_of_zero_seconds spec.quiet spec.quiet w eq_refl) as [Hq _].
  rewrite Hq. reflexivity.
Defined.

Lemma nan_frame_makes_toasts_permanent_witness :
  let w := on_exception (spec.warn "A") spec.fresh in
  let later := [(of_Z 3600, spec.quiet); (of_Z 3600, spec.quiet)] in
  show_statistics_ (overlay w) = false /\
  map message (toasts_ (overlay (render_frames ((session.nan, spec.quiet) :: later) w)))
  = ["A"].
Proof.
  intros w later. split; [reflexivity | ].
  rewrite (nan_frame_makes_toasts_permanent spec.quiet later w eq_refl). reflexivity.
Defined.

Lemma queue_holds_no_critical_toast_witness :
  let ops := [session.Event (spec.warn "A"); session.Event (spec.critical "B");
              session.RenderFrame (literal 1 60) spec.quiet] in
  Forall session.toast_well_formed (toasts_ (overlay spec.fresh)) /\
  Forall (fun t => severity t <> core.Critical /\
                   color t = severity_to_color (severity t) /\
                   color t <> severity_to_color core.Critical)
         (toasts_ (overlay (fst (session.run ops spec.fresh)))).
Proof.
  intros ops.
  assert (H : Forall session.toast_well_formed (toasts_ (overlay spec.fresh)))
    by apply Forall_nil.
  split; [exact H | ].
  apply (queue_holds_no_critical_toast ops spec.fresh H).
Defined.

Lemma statistics_window_never_opens_witness :
  let ops := [session.Event (spec.warn "A");
              session.RenderFrame (literal 1 60)
                (mk_Frame (viewport spec.quiet) (toast_window_height spec.quiet)
                   false false false true false true)] in
  show_statistics_ (overlay spec.fresh) = false /\
  List.length (toasts_ (overlay (fst (session.run ops spec.fresh)))) = 1%nat /\
  forallb (fun d => negb (session.is_statistics_window d))
    (snd (session.run ops spec.fresh)) = true.
Proof.
  intros ops. split; [reflexivity | ]. split; [reflexivity | ].
  apply (statistics_window_never_opens ops spec.fresh eq_refl).
Defined.

Lemma queue_stays_within_bound_witness :
  let ops := [session.Event (spec.warn "A"); session.Event (spec.warn "B");
              session.RenderFrame (literal 1 60) spec.quiet;
              session.Event (spec.warn "C"); session.Event (spec.warn "D");
              session.Event (spec.warn "E"); session.Event (spec.warn "F")] in
  forallb (fun op => negb (session.is_set_max_toasts op)) ops = true /\
  (List.length (toasts_ (overlay spec.fresh))
   <= N.to_nat (max_toasts_ (overlay spec.fresh)))%nat /\
  (List.length (toasts_ (overlay (fst (session.run ops spec.fresh)))) <= 5)%nat.
Proof.
  intros ops.
  assert (H : (List.length (toasts_ (overlay spec.fresh))
               <= N.to_nat (max_toasts_ (overlay spec.fresh)))%nat)
    by (cbn; lia).
  split; [reflexivity | ]. split; [exact H | ].
  apply (queue_stays_within_bound ops spec.fresh eq_refl H).
Defined.

Lemma smaller_bound_applies_at_next_event_witness :
  let w := spec.deliver [spec.warn "A"; spec.warn "B"; spec.warn "C"] spec.fresh in
  core.severity (spec.warn "D") <> core.Critical /\
  map message (toasts_ (overlay (session.on_overlay (set_max_toasts 2) w)))
    = ["A"; "B"; "C"] /\
  map message
    (toasts_ (overlay (on_exception (spec.warn "D")
                         (session.on_overlay (set_max_toasts 2) w)))) = ["C"; "D"].
Proof.
  intros w.
  assert (H : core.severity (spec.warn "D") <> core.Critical) by discriminate.
  split; [exact H | ]. split; [reflexivity | ].
  destruct (smaller_bound_applies_at_next_event 2 (spec.warn "D") w H) as [_ [Hq _]].
  rewrite Hq. reflexivity.
Defined.

Lemma toast_leaves_modal_alone_witness :
  let w := on_exception (spec.critical "B") spec.fresh in
  core.severity (spec.warn "A") <> core.Critical /\
  modal_error_ (overlay (on_exception (spec.warn "A") w)) = Some (spec.critical "B").
Proof.
  intros w.
  assert (H : core.severity (spec.warn "A") <> core.Critical) by discriminate.
  split; [exact H | ].
  destruct (toast_leaves_modal_alone (spec.warn "A") w H) as [Hslot _].
  rewrite Hslot. reflexivity.
Defined.

Lemma toast_location_is_file_and_line_witness :
  has_separator "loader.cpp" = false /\
  core.file_name (core.location (spec.warn "A")) = ("/src/io" ++ "/" ++ "loader.cpp")%string /\
  location (make_toast (of_Z 4) (spec.warn "A")) = "loader.cpp:42".
Proof.
  split; [reflexivity | ]. split; [reflexivity | ].
  destruct (toast_location_is_file_and_line "/src/io" "loader.cpp" (of_Z 4)
              (spec.warn "A") eq_refl (or_introl eq_refl)) as [Hloc _].
  rewrite Hloc. reflexivity.
Defined.

Lemma wrapped_failure_reaches_overlay_witness :
  let p := session.with_overlay spec.fresh 0 in
  spec.throwing spec.ios_failure tt p = (core.Threw spec.ios_failure, p) /\
  core.observers_ (core.handler p) = [observer] /\
  enabled_ (overlay (core.world p)) = true /\
  map (fun t => (message t, type t))
    (toasts_ (overlay (core.world (snd (core.wrap (spec.throwing spec.ios_failure)
                                           spec.here tt p)))))
  = [("disk full", "system_error")].
Proof.
  intros p. repeat (split; [reflexivity | ]).
  destruct (wrapped_failure_reaches_overlay (spec.throwing spec.ios_failure)
              spec.here tt p p spec.ios_failure eq_refl eq_refl eq_refl)
    as [Hw _].
  rewrite Hw. reflexivity.
Defined.

Lemma disabled_overlay_drops_events_witness :
  let p := session.with_overlay (session.on_overlay (set_enabled false) spec.fresh) 0 in
  core.observers_ (core.handler p) = [observer] /\
  enabled_ (overlay (core.world p)) = false /\
  core.report "lost" core.Error spec.here p = (core.Returned tt, p).
Proof.
  intros p. split; [reflexivity | ]. split; [reflexivity | ].
  destruct (disabled_overlay_drops_events (spec.throwing spec.ios_failure)
              spec.here tt "lost" core.Error p eq_refl eq_refl) as [Hreport _].
  exact Hreport.
Defined.

Lemma legacy_background_keeps_rgb_witness :
  (0 <= 220 < 256) /\ (0 <= 150 < 256) /\ (0 <= 50 < 256) /\ (0 <= 255 < 256) /\
  legacy.window_background (IM_COL32 220 150 50 255) = IM_COL32 220 150 50 200.
Proof.
  assert (H1 : 0 <= 220 < 256) by (split; [discriminate | reflexivity]).
  assert (H2 : 0 <= 150 < 256) by (split; [discriminate | reflexivity]).
  assert (H3 : 0 <= 50 < 256) by (split; [discriminate | reflexivity]).
  assert (H4 : 0 <= 255 < 256) by (split; [discriminate | reflexivity]).
  repeat (split; [assumption | ]).
  apply (legacy_background_keeps_rgb 220 150 50 255 H1 H2 H3 H4).
Defined.

Lemma ring_setters_clamp_witness :
  scene.is_nan (literal 3 2) = false /\
  scene.getRingSize (scene.setRingSize (literal 3 2) scene.default_config) = one /\
  scene.in_unit_range (scene.getRingSize (scene.setRingSize (literal 3 2) scene.default_config)).
Proof.
  split; [reflexivity | ]. split; [reflexivity | ].
  destruct (ring_setters_clamp (literal 3 2) scene.default_config) as [Hrange _].
  apply (Hrange eq_refl).
Defined.

Lemma ring_settings_stay_in_range_witness :
  let frames :=
    [scene.mk_RingWidgets (Some (of_Z 7)) None None None None None false;
     scene.mk_RingWidgets None (Some (literal (-1) 2)) (Some false) None None None false] in
  scene.in_unit_range (scene.ring_size scene.default_config) /\
  scene.in_unit_range (scene.selection_alpha scene.default_config) /\
  scene.in_unit_range
    (scene.ring_size (fold_left (fun c ws => scene.renderRingSettings ws c) frames
                        scene.default_config)).
Proof.
  intros frames.
  assert (Hr : scene.in_unit_range (scene.ring_size scene.default_config))
    by (split; reflexivity).
  assert (Ha : scene.in_unit_range (scene.selection_alpha scene.default_config))
    by (split; reflexivity).
  split; [exact Hr | ]. split; [exact Ha | ].
  assert (Hframes :
    Forall (fun ws =>
              match scene.ring_thickness ws with
              | Some x => scene.is_nan x = false | None => True end /\
              match scene.selection_alpha_slider ws with
              | Some x => scene.is_nan x = false | None => True end) frames).
  { repeat constructor. }
  destruct (ring_settings_stay_in_range frames scene.default_config Hframes Hr Ha)
    as [Hsize _].
  exact Hsize.
Defined.

Lemma reset_restores_default_colours_witness :
  let ws := scene.mk_RingWidgets None None None
              (Some (scene.mk_vec4 zero zero zero one)) None None true in
  scene.reset_pressed ws = true /\
  scene.selected_color (scene.renderColorControls ws scene.default_config)
  = scene.mk_vec4 one one (literal 2 10) one.
Proof.
  intros ws. split; [reflexivity | ].
  destruct (reset_restores_default_colours ws scene.default_config eq_refl) as [Hsel _].
  rewrite Hsel. reflexivity.
Defined.

Lemma limitFrameRate_spaces_frames_witness :
  0 < 30 /\ 0 <= 10000000 /\
  viewer.limitFrameRate 30 0 10000000 33400000 = Some (Some 23333, 33400000).
Proof.
  assert (H1 : 0 < 30) by reflexivity.
  assert (H2 : 0 <= 10000000) by discriminate.
  split; [exact H1 | ]. split; [exact H2 | ].
  destruct (limitFrameRate_spaces_frames 30 0 10000000 33400000 H1 H2)
    as [slept [Hrun _]].
  reflexivity.
Defined.

Lemma limitFrameRate_without_limit_witness :
  0 <= 5 /\ (-1 < 0 \/ 1000000 < -1) /\
  viewer.limitFrameRate (-1) 0 5 5 = Some (None, 5).
Proof.
  assert (H : 0 <= 5) by discriminate.
  assert (Hneg : -1 < 0 \/ 1000000 < -1) by (left; reflexivity).
  split; [exact H | ]. split; [exact Hneg | ].
  destruct (limitFrameRate_without_limit (-1) 0 5 5 H) as [Hoff _].
  apply (Hoff Hneg).
Defined.

Lemma updateWindowSize_follows_window_witness :
  let s := viewer.mk_Sizes (1280, 720) (1280, 720) in
  viewer.updateWindowSize 1280 720 2560 1440 s = (s, false).
Proof.
  intros s.
  destruct (updateWindowSize_follows_window 1280 720 1280 720 s) as [_ [_ [_ Hagain]]].
  apply (Hagain 2560 1440).
Defined.

Lemma every_eighth_camera_is_test_witness :
  count_occ bool_dec (viewer.is_test_camera 20) true = 3%nat.
Proof.
  destruct (every_eighth_camera_is_test 20) as [_ [_ Hcount]].
  rewrite Hcount. reflexivity.
Defined.

End Instances.
